(** * The team-location pipeline and the member lookup, embedded and verified

    The development follows the three scripts of the data pipeline
    (location analysis and geocoding in [analyzeTeamData.js], the merge
    into the served dataset in the team data processor) and the
    [/team/:id] route of the backend.

    Modelling conventions.
    - A JavaScript string is a [string]; its characters are ASCII code
      units.  A character outside ASCII is carried as its UTF-8 bytes, on
      which the case and white-space functions below do nothing.  These
      functions are JavaScript's on text of ASCII characters; the
      properties that depend on them are stated for such text
      ([asciiOnly]).
    - A number is the decimal text JavaScript prints for it; [parseInt]
      returns an integer, which is JavaScript's number for the safe
      integers ([isSafeInteger]).
    - A field read from JSON that holds text is a [text]: it may be
      missing ([Undefined]), [Null] or a string.
    - A [Map] is an association list in insertion order.
    - A call that may throw returns a [completion].
    - The geocoding provider is a parameter of the functions that call it;
      it carries a state of its own so that two equal requests may get
      different answers. *)

From Stdlib Require Import String Ascii List Bool Arith ZArith Lia DecimalString.
From Stdlib Require Import Permutation DecimalPos.
Import ListNotations.
Local Open Scope string_scope.
Local Open Scope bool_scope.

(* ================================================================== *)
(** ** The JavaScript run time the scripts rely on *)

Module JS.

Inductive text : Type :=
| Undefined
| Null
| Str (s : string).

(** [!!v] *)
Definition truthy (v : text) : bool :=
  match v with
  | Str s => negb (s =? "")
  | _ => false
  end.

(** The text a template literal puts for [${v}]. *)
Definition interpolate (v : text) : string :=
  match v with
  | Undefined => "undefined"
  | Null => "null"
  | Str s => s
  end.

(** [v === s] for a string literal [s]. *)
Definition strictEq (v : text) (s : string) : bool :=
  match v with
  | Str t => t =? s
  | _ => false
  end.

(** The result of a call that may throw. *)
Inductive completion (A : Type) : Type :=
| Normal (a : A)
| Throw (message : string).
Arguments Normal {A} a.
Arguments Throw {A} message.

Definition bind {A B : Type} (c : completion A) (k : A -> completion B)
  : completion B :=
  match c with
  | Normal a => k a
  | Throw m => Throw m
  end.

Definition isUpper (c : ascii) : bool :=
  (65 <=? nat_of_ascii c)%nat && (nat_of_ascii c <=? 90)%nat.

Definition lowerChar (c : ascii) : ascii :=
  if isUpper c then ascii_of_nat (nat_of_ascii c + 32) else c.

(** [s.toLowerCase()] on ASCII text: the letters A to Z are lowered.
    JavaScript also lowers the letters outside ASCII. *)
Fixpoint toLowerCase (s : string) : string :=
  match s with
  | EmptyString => EmptyString
  | String c r => String (lowerChar c) (toLowerCase r)
  end.

(** [s.startsWith(p)] *)
Fixpoint startsWith (s p : string) : bool :=
  match p, s with
  | EmptyString, _ => true
  | String a p', String b s' => Ascii.eqb a b && startsWith s' p'
  | String _ _, EmptyString => false
  end.

(** [s.includes(p)] *)
Fixpoint includes (s p : string) : bool :=
  startsWith s p ||
  match s with
  | EmptyString => false
  | String _ r => includes r p
  end.

(** [s.substring(n)] *)
Fixpoint drop (n : nat) (s : string) : string :=
  match n, s with
  | O, _ => s
  | S n', String _ r => drop n' r
  | S _, EmptyString => EmptyString
  end.

(** [s.replace(p, r)] for a string pattern [p] and a replacement [r]
    without [$]: the first occurrence of [p] is replaced. *)
Fixpoint replace (s p r : string) : string :=
  if startsWith s p then r ++ drop (String.length p) s
  else match s with
       | EmptyString => EmptyString
       | String c t => String c (replace t p r)
       end.

(** White space of [\s] and of [trim] in ASCII text: tab, line feed,
    vertical tab, form feed, carriage return, space.  JavaScript also
    counts U+00A0, U+FEFF and the other Unicode spaces. *)
Definition isSpace (c : ascii) : bool :=
  let n := nat_of_ascii c in
  ((9 <=? n)%nat && (n <=? 13)%nat) || (n =? 32)%nat.

Fixpoint trimStart (s : string) : string :=
  match s with
  | EmptyString => EmptyString
  | String c r => if isSpace c then trimStart r else s
  end.

Fixpoint trimEnd (s : string) : string :=
  match s with
  | EmptyString => EmptyString
  | String c r =>
      match trimEnd r with
      | EmptyString => if isSpace c then EmptyString else String c EmptyString
      | t => String c t
      end
  end.

(** [s.trim()] *)
Definition trim (s : string) : string := trimEnd (trimStart s).

(** What is left of [s] after a prefix that equals the lower-case word [w]
    when letter case is ignored, as a regular expression with flag [i]
    matches a word. *)
Fixpoint afterWord (w s : string) : option string :=
  match w, s with
  | EmptyString, _ => Some s
  | String a w', String b s' =>
      if Ascii.eqb a (lowerChar b) then afterWord w' s' else None
  | String _ _, EmptyString => None
  end.

(** [s.replace(/Greater\s+/i, '')]: the leftmost place where the word is
    followed by white space; the word and the whole run of white space
    after it are removed. *)
Fixpoint replaceGreaterSpaces (s : string) : string :=
  match afterWord "greater" s with
  | Some (String c r as rest) =>
      if isSpace c then trimStart rest
      else match s with
           | EmptyString => EmptyString
           | String d t => String d (replaceGreaterSpaces t)
           end
  | _ => match s with
         | EmptyString => EmptyString
         | String d t => String d (replaceGreaterSpaces t)
         end
  end.

(** [s.replace(/\s+Area/i, '')]: the leftmost white-space character whose
    run of white space is followed by the word; the run and the word are
    removed. *)
Fixpoint replaceSpacesArea (s : string) : string :=
  match s with
  | EmptyString => EmptyString
  | String c t =>
      if isSpace c then
        match afterWord "area" (trimStart t) with
        | Some rest => rest
        | None => String c (replaceSpacesArea t)
        end
      else String c (replaceSpacesArea t)
  end.

(** [s.split(',')[0]] *)
Fixpoint beforeComma (s : string) : string :=
  match s with
  | EmptyString => EmptyString
  | String c t => if Ascii.eqb c "," then EmptyString else String c (beforeComma t)
  end.

(** The names every object literal inherits from [Object.prototype]. *)
Definition objectPrototypeKeys : list string :=
  [ "constructor"; "hasOwnProperty"; "isPrototypeOf";
    "propertyIsEnumerable"; "toLocaleString"; "toString"; "valueOf";
    "__proto__"; "__defineGetter__"; "__defineSetter__";
    "__lookupGetter__"; "__lookupSetter__" ].

(** What [object[key]] finds in an object literal whose own properties are
    strings. *)
Inductive property : Type :=
| Own (value : string)
| Inherited
| Absent.

Fixpoint assoc {A : Type} (key : string) (l : list (string * A)) : option A :=
  match l with
  | [] => None
  | (k, v) :: r => if k =? key then Some v else assoc key r
  end.

Definition getProperty (own : list (string * string)) (key : string) : property :=
  match assoc key own with
  | Some v => Own v
  | None =>
      if existsb (String.eqb key) objectPrototypeKeys then Inherited else Absent
  end.

End JS.

Import JS.

(* ================================================================== *)
(** ** analyzeTeamData.js: classification and normalisation *)

Definition problematicKeywords : list string :=
  [ "world"; "earth"; "remote"; "nomad"; "digital nomad"; "everywhere";
    "nowhere"; "n/a"; "tbd"; "various" ].

Definition isPotentiallyProblematic (location : text) : bool :=
  if negb (truthy location) || strictEq location "null" then true
  else
    let lowerLocation := toLowerCase (interpolate location) in
    existsb (fun keyword => includes lowerLocation keyword) problematicKeywords.

Definition countryNames : list (string * string) :=
  [ ("PL", "Poland"); ("GB", "United Kingdom"); ("US", "United States");
    ("CA", "Canada"); ("DE", "Germany"); ("FR", "France"); ("ES", "Spain");
    ("IT", "Italy"); ("NL", "Netherlands"); ("BE", "Belgium") ].

(** The sentinel place name. *)
Definition northPole : string := "North Pole".

(** Rule 2 of [normalizeLocation]. *)
Definition stripUK (country : text) (normalized : string) : string :=
  if strictEq country "GB" && includes normalized ", UK"
  then replace normalized ", UK" ""
  else normalized.

(** Rule 3 of [normalizeLocation]. *)
Definition stripGreaterArea (normalized : string) : string :=
  if includes normalized "Greater" && includes normalized "Area"
  then replaceSpacesArea (replaceGreaterSpaces normalized)
  else normalized.

(** Rule 4 of [normalizeLocation].  A country that names an inherited
    property of the table finds a function there, and the call of its
    [toLowerCase] throws. *)
Definition stripCountryName (country : text) (normalized : string)
  : completion string :=
  if truthy country && includes normalized "," then
    match getProperty countryNames (interpolate country) with
    | Own countryName =>
        if negb (countryName =? "") &&
           includes (toLowerCase normalized) (toLowerCase countryName)
        then Normal (trim (beforeComma normalized))
        else Normal normalized
    | Inherited => Throw "countryName.toLowerCase is not a function"
    | Absent => Normal normalized
    end
  else Normal normalized.

Definition normalizeLocation (location country : text) : completion string :=
  if negb (truthy location) || strictEq location "null"
     || (toLowerCase (interpolate location) =? "world")
  then Normal northPole
  else
    let normalized := trim (interpolate location) in
    let normalized := stripUK country normalized in
    let normalized := stripGreaterArea normalized in
    stripCountryName country normalized.

(** The query of the forward request for one location. *)
Definition searchQuery (normalizedLocation : string) (country : text) : string :=
  if truthy country && negb (strictEq country "world")
  then normalizedLocation ++ ", " ++ interpolate country
  else normalizedLocation.

(* ================================================================== *)
(** ** The data both pipeline scripts read and write *)

(** A JavaScript number the pipeline only carries along, held as its
    decimal text (the text [JSON.stringify] and a template literal give
    it), so that storing and loading it changes nothing. *)
Definition number : Type := string.

(** A scalar the scripts copy without looking at it. *)
Inductive json : Type :=
| JUndefined
| JNull
| JBool (b : bool)
| JNum (n : number)
| JStr (s : string).

Record Avatar : Type := { url : text }.

Record TeamAttributes : Type := { attr_name : json; attr_slug : json }.

Record TeamRef : Type := { team_id : json; attributes : option TeamAttributes }.

Record TeamList : Type := { data : option (list TeamRef) }.

(** One scraped person: an element of [data.team.teamMembers]. *)
Record RawTeamRecord : Type := {
  squeakId : json;
  firstName : text;
  lastName : text;
  companyRole : json;
  location : text;
  country : text;
  avatar : option Avatar;
  biography : json;
  color : json;
  pronouns : json;
  pineappleOnPizza : json;
  startDate : json;
  teams : option TeamList;
  leadTeams : option TeamList
}.

(** The key both scripts build: [`${location}|${country}`]. *)
Definition locationKey (loc ctry : text) : string :=
  interpolate loc ++ "|" ++ interpolate ctry.

(** [`${member.firstName} ${member.lastName}`] *)
Definition fullName (member : RawTeamRecord) : string :=
  interpolate (firstName member) ++ " " ++ interpolate (lastName member).

(** The value stored in [locationMap] for one key. *)
Record LocationData : Type := {
  loc_location : text;
  loc_country : text;
  loc_count : nat;
  loc_members : list string
}.

(** What the provider answers for one place. *)
Record GeoHit : Type := {
  latitude : number;
  longitude : number;
  formattedAddress : text;
  city : text;
  hit_country : text;
  countryCode : text
}.

Record Geocoded : Type := {
  lat : number;
  lng : number;
  geo_formattedAddress : text;
  geo_city : text;
  geo_country : text;
  geo_countryCode : text
}.

(** An element of [geocodeResults]: [{ ...loc, geocoded, success, error }]
    where [loc] is [{ key, ...data }]. *)
Record GeocodeResult : Type := {
  res_key : string;
  res_data : LocationData;
  geocoded : option Geocoded;
  success : bool;
  error : option string
}.

Definition res_location (r : GeocodeResult) : text := loc_location (res_data r).
Definition res_country (r : GeocodeResult) : text := loc_country (res_data r).

Record VerificationMismatch : Type := {
  original : text;
  originalCountry : text;
  coordinates : string;
  reverseGeocodedTo : string;
  membersAffected : nat
}.

(** The geocoding provider: a forward and a reverse request, each of
    which answers with a list of places (or nothing) or throws. *)
Record Provider : Type := {
  World : Type;
  geocode : World -> string -> completion (option (list GeoHit)) * World;
  reverse : World -> number -> number -> completion (option (list GeoHit)) * World
}.

(** What a run does to the outside, in order. *)
Inductive event : Type :=
| Geocode (query : string)
| Reverse (latitude longitude : number)
| Delay (ms : nat).

(* ================================================================== *)
(** ** [Map] as an association list in insertion order *)

Section MapOps.
Context {A : Type}.

Definition mapHas (key : string) (m : list (string * A)) : bool :=
  match assoc key m with
  | Some _ => true
  | None => false
  end.

(** [m.set(key, v)]: an existing key keeps its place. *)
Fixpoint mapSet (key : string) (v : A) (m : list (string * A))
  : list (string * A) :=
  match m with
  | [] => [(key, v)]
  | (k, x) :: r =>
      if k =? key then (k, v) :: r else (k, x) :: mapSet key v r
  end.

Definition mapValues (m : list (string * A)) : list A := map snd m.
Definition mapKeys (m : list (string * A)) : list string := map fst m.
End MapOps.

(* ================================================================== *)
(** ** analyzeTeamData.js: [geocodeTeamData] *)

(** Step 1, the body of [teamMembers.forEach]: the object stored under the
    key is updated in place. *)
Definition collectMember (locationMap : list (string * LocationData))
  (member : RawTeamRecord) : list (string * LocationData) :=
  let key := locationKey (location member) (country member) in
  let locationMap :=
    if mapHas key locationMap then locationMap
    else mapSet key {| loc_location := location member;
                       loc_country := country member;
                       loc_count := 0;
                       loc_members := [] |} locationMap in
  match assoc key locationMap with
  | Some locData =>
      mapSet key {| loc_location := loc_location locData;
                    loc_country := loc_country locData;
                    loc_count := S (loc_count locData);
                    loc_members := (loc_members locData ++ [fullName member])%list |}
             locationMap
  | None => locationMap
  end.

Definition collectLocations (teamMembers : list RawTeamRecord)
  : list (string * LocationData) :=
  fold_left collectMember teamMembers [].

(** Step 2: the entries [{ key, ...data }], the problematic ones and the
    others, each in the order of the map. *)
Definition isProblematicEntry (loc : string * LocationData) : bool :=
  isPotentiallyProblematic (loc_location (snd loc)).

Definition problematicOf (locationMap : list (string * LocationData)) :=
  filter isProblematicEntry locationMap.

Definition normalOf (locationMap : list (string * LocationData)) :=
  filter (fun loc => negb (isProblematicEntry loc)) locationMap.

Definition allLocationsOf (locationMap : list (string * LocationData)) :=
  (problematicOf locationMap ++ normalOf locationMap)%list.

(** The state of the loop of step 3. *)
Record GeocodeState (P : Provider) : Type := {
  world : World P;
  geocodeResults : list (string * GeocodeResult);
  successCount : nat;
  failCount : nat;
  events : list event
}.
Arguments world {P} _.
Arguments geocodeResults {P} _.
Arguments successCount {P} _.
Arguments failCount {P} _.
Arguments events {P} _.

Definition failedResult (loc : string * LocationData) (message : string)
  : GeocodeResult :=
  {| res_key := fst loc; res_data := snd loc; geocoded := None;
     success := false; error := Some message |}.

Definition succeededResult (loc : string * LocationData) (result : GeoHit)
  : GeocodeResult :=
  {| res_key := fst loc; res_data := snd loc;
     geocoded := Some {| lat := latitude result;
                         lng := longitude result;
                         geo_formattedAddress := formattedAddress result;
                         geo_city := city result;
                         geo_country := hit_country result;
                         geo_countryCode := countryCode result |};
     success := true; error := None |}.

(** One turn of the loop of step 3.  [normalizeLocation] is called before
    the inner [try], so what it throws ends the whole run. *)
Definition geocodeStep (P : Provider) (st : GeocodeState P)
  (loc : string * LocationData) : completion (GeocodeState P) :=
  bind (normalizeLocation (loc_location (snd loc)) (loc_country (snd loc)))
    (fun normalizedLocation =>
       let query := searchQuery normalizedLocation (loc_country (snd loc)) in
       let (answer, w) := geocode P (world st) query in
       let log := (events st ++ [Geocode query])%list in
       match answer with
       | Normal (Some (result :: _)) =>
           Normal {| world := w;
                     geocodeResults :=
                       mapSet (fst loc) (succeededResult loc result)
                              (geocodeResults st);
                     successCount := S (successCount st);
                     failCount := failCount st;
                     events := (log ++ [Delay 1000])%list |}
       | Normal _ =>
           Normal {| world := w;
                     geocodeResults :=
                       mapSet (fst loc) (failedResult loc "No results found")
                              (geocodeResults st);
                     successCount := successCount st;
                     failCount := S (failCount st);
                     events := (log ++ [Delay 1000])%list |}
       | Throw message =>
           Normal {| world := w;
                     geocodeResults :=
                       mapSet (fst loc) (failedResult loc message)
                              (geocodeResults st);
                     successCount := successCount st;
                     failCount := S (failCount st);
                     events := (log ++ [Delay 1000])%list |}
       end).

Fixpoint geocodeLoop (P : Provider) (st : GeocodeState P)
  (allLocations : list (string * LocationData))
  : completion (GeocodeState P) :=
  match allLocations with
  | [] => Normal st
  | loc :: rest => bind (geocodeStep P st loc) (fun st' => geocodeLoop P st' rest)
  end.

(** The state of the loop of step 4. *)
Record VerifyState (P : Provider) : Type := {
  v_world : World P;
  mismatches : list VerificationMismatch;
  v_events : list event
}.
Arguments v_world {P} _.
Arguments mismatches {P} _.
Arguments v_events {P} _.

(** [reverse.city?.toLowerCase() || ''] *)
Definition cityLower (c : text) : string :=
  match c with
  | Str s => toLowerCase s
  | _ => ""
  end.

(** The comparison of step 4 on two strings and the city, all of ASCII
    characters. *)
Definition matchesReverse (originalLocation address : string) (c : text) : bool :=
  let originalLower := toLowerCase originalLocation in
  let reverseLower := toLowerCase address in
  includes reverseLower originalLower || includes originalLower (cityLower c).

Definition mismatchOf (loc : GeocodeResult) (g : Geocoded) (address : string)
  : VerificationMismatch :=
  {| original := res_location loc;
     originalCountry := res_country loc;
     coordinates := lat g ++ ", " ++ lng g;
     reverseGeocodedTo := address;
     membersAffected := loc_count (res_data loc) |}.

(** One turn of the loop of step 4.  The whole body is inside [try]; the
    [catch] is empty, so a turn that throws (the request, or a property
    read from something that is not there) leaves the list as it is and
    skips the delay. *)
Definition verifyStep (P : Provider) (st : VerifyState P) (loc : GeocodeResult)
  : VerifyState P :=
  match geocoded loc with
  | None => st
  | Some g =>
      let (answer, w) := reverse P (v_world st) (lat g) (lng g) in
      let log := (v_events st ++ [Reverse (lat g) (lng g)])%list in
      match answer with
      | Throw _ =>
          {| v_world := w; mismatches := mismatches st; v_events := log |}
      | Normal (Some (rev :: _)) =>
          match res_location loc, formattedAddress rev with
          | Str originalLocation, Str address =>
              {| v_world := w;
                 mismatches :=
                   if matchesReverse originalLocation address (city rev)
                   then mismatches st
                   else (mismatches st ++ [mismatchOf loc g address])%list;
                 v_events := (log ++ [Delay 1000])%list |}
          | _, _ =>
              {| v_world := w; mismatches := mismatches st; v_events := log |}
          end
      | Normal _ =>
          {| v_world := w; mismatches := mismatches st;
             v_events := (log ++ [Delay 1000])%list |}
      end
  end.

Definition verificationsNeeded (geocodeResults : list (string * GeocodeResult))
  : list GeocodeResult :=
  firstn 10 (filter success (mapValues geocodeResults)).

Definition verifyLoop (P : Provider) (st : VerifyState P)
  (needed : list GeocodeResult) : VerifyState P :=
  fold_left (verifyStep P) needed st.

(** What [geocodeTeamData] saves in [geocode_results.json], and what it
    did to the outside. *)
Record Summary : Type := {
  total : nat;
  successful : nat;
  failed : nat;
  problematic : nat;
  summary_mismatches : nat
}.

Record GeocodeOutput : Type := {
  summary : Summary;
  problematicLocations : list LocationData;
  failedGeocode : list GeocodeResult;
  verificationMismatches : list VerificationMismatch;
  allResults : list GeocodeResult;
  trace : list event
}.

Definition geocodeTeamData (P : Provider) (w : World P)
  (teamMembers : list RawTeamRecord) : completion GeocodeOutput :=
  let locationMap := collectLocations teamMembers in
  let allLocations := allLocationsOf locationMap in
  bind (geocodeLoop P {| world := w; geocodeResults := [];
                         successCount := 0; failCount := 0; events := [] |}
                    allLocations)
    (fun st =>
       let v := verifyLoop P {| v_world := world st; mismatches := [];
                                v_events := events st |}
                           (verificationsNeeded (geocodeResults st)) in
       Normal {| summary :=
                   {| total := List.length allLocations;
                      successful := successCount st;
                      failed := failCount st;
                      problematic := List.length (problematicOf locationMap);
                      summary_mismatches := List.length (mismatches v) |};
                 problematicLocations := map snd (problematicOf locationMap);
                 failedGeocode :=
                   filter (fun r => negb (success r))
                          (mapValues (geocodeResults st));
                 verificationMismatches := mismatches v;
                 allResults := mapValues (geocodeResults st);
                 trace := v_events v |}).

(* ================================================================== *)
(** ** The team data processor: [processTeamData] *)

(** The value stored in the lookup map of the processor. *)
Record Coordinates : Type := {
  c_latitude : number;
  c_longitude : number;
  c_formattedAddress : text
}.

Record TeamSummary : Type := { ts_id : json; ts_name : json; ts_slug : json }.

Record LeadTeamSummary : Type := { lt_name : json }.

(** An element of [team] in the served dataset. *)
Record EnrichedMember : Type := {
  em_id : json;
  em_name : string;
  em_firstName : text;
  em_lastName : text;
  em_role : json;
  em_location : text;
  em_country : text;
  em_latitude : number;
  em_longitude : number;
  em_formattedAddress : text;
  em_avatar : text;
  em_biography : json;
  em_color : json;
  em_pronouns : json;
  em_pineappleOnPizza : json;
  em_startDate : json;
  em_teams : list TeamSummary;
  em_leadTeams : list LeadTeamSummary
}.

(** The body of [geocodeResults.allResults.forEach]. *)
Definition addResult (locationMap : list (string * Coordinates))
  (result : GeocodeResult) : list (string * Coordinates) :=
  match success result, geocoded result with
  | true, Some g =>
      let key := locationKey (res_location result) (res_country result) in
      mapSet key {| c_latitude := lat g;
                    c_longitude := lng g;
                    c_formattedAddress := geo_formattedAddress g |}
             locationMap
  | _, _ => locationMap
  end.

Definition buildLocationMap (allResults : list GeocodeResult)
  : list (string * Coordinates) :=
  fold_left addResult allResults [].

(** [t.attributes?.name] and [t.attributes?.slug] *)
Definition attributeOf (f : TeamAttributes -> json) (t : TeamRef) : json :=
  match attributes t with
  | Some a => f a
  | None => JUndefined
  end.

(** [member.teams?.data?.map(...) || []] *)
Definition teamSummaries (l : option TeamList) : list TeamSummary :=
  match l with
  | Some {| data := Some ts |} =>
      map (fun t => {| ts_id := team_id t;
                       ts_name := attributeOf attr_name t;
                       ts_slug := attributeOf attr_slug t |}) ts
  | _ => []
  end.

Definition leadTeamSummaries (l : option TeamList) : list LeadTeamSummary :=
  match l with
  | Some {| data := Some ts |} =>
      map (fun t => {| lt_name := attributeOf attr_name t |}) ts
  | _ => []
  end.

(** [member.avatar?.url || null] *)
Definition avatarUrl (a : option Avatar) : text :=
  match a with
  | Some {| url := u |} => if truthy u then u else Null
  | None => Null
  end.

Definition enrich (member : RawTeamRecord) (coords : Coordinates)
  : EnrichedMember :=
  {| em_id := squeakId member;
     em_name := fullName member;
     em_firstName := firstName member;
     em_lastName := lastName member;
     em_role := companyRole member;
     em_location := location member;
     em_country := country member;
     em_latitude := c_latitude coords;
     em_longitude := c_longitude coords;
     em_formattedAddress := c_formattedAddress coords;
     em_avatar := avatarUrl (avatar member);
     em_biography := biography member;
     em_color := color member;
     em_pronouns := pronouns member;
     em_pineappleOnPizza := pineappleOnPizza member;
     em_startDate := startDate member;
     em_teams := teamSummaries (teams member);
     em_leadTeams := leadTeamSummaries (leadTeams member) |}.

(** The text [console.warn] prints for a member without coordinates. *)
Definition warningFor (member : RawTeamRecord) : string :=
  "⚠️  No coordinates found for: " ++ interpolate (firstName member) ++ " "
  ++ interpolate (lastName member) ++ " (" ++ interpolate (location member)
  ++ ", " ++ interpolate (country member) ++ ")".

(** The counters of the processor and what it has printed with
    [console.warn]. *)
Record MergeState : Type := {
  processed : nat;
  skipped : nat;
  warnings : list string
}.

(** The callback of [teamMembers.map]: the member of the dataset, or
    [null]. *)
Definition processMember (locationMap : list (string * Coordinates))
  (st : MergeState) (member : RawTeamRecord)
  : option EnrichedMember * MergeState :=
  let locationKey := locationKey (location member) (country member) in
  match assoc locationKey locationMap with
  | Some coords =>
      (Some (enrich member coords),
       {| processed := S (processed st); skipped := skipped st;
          warnings := warnings st |})
  | None =>
      (None,
       {| processed := processed st; skipped := S (skipped st);
          warnings := (warnings st ++ [warningFor member])%list |})
  end.

Fixpoint mapMembers (locationMap : list (string * Coordinates))
  (st : MergeState) (teamMembers : list RawTeamRecord)
  : list (option EnrichedMember) * MergeState :=
  match teamMembers with
  | [] => ([], st)
  | member :: rest =>
      let (m, st1) := processMember locationMap st member in
      let (ms, st2) := mapMembers locationMap st1 rest in
      (m :: ms, st2)
  end.

(** [.filter(m => m !== null)] *)
Fixpoint notNull {A : Type} (l : list (option A)) : list A :=
  match l with
  | [] => []
  | Some a :: r => a :: notNull r
  | None :: r => notNull r
  end.

Record Metadata : Type := {
  totalMembers : nat;
  lastUpdated : string;
  source : string;
  dataVersion : string
}.

Record FinalData : Type := { metadata : Metadata; team : list EnrichedMember }.

(** What [processTeamData] writes to [team.json], its counters and its
    warnings; [now] is the time stamp of the run. *)
Definition processTeamData (now : string) (teamMembers : list RawTeamRecord)
  (allResults : list GeocodeResult) : FinalData * MergeState :=
  let locationMap := buildLocationMap allResults in
  let (mapped, st) :=
    mapMembers locationMap
               {| processed := 0; skipped := 0; warnings := [] |} teamMembers in
  let processedMembers := notNull mapped in
  ({| metadata := {| totalMembers := List.length processedMembers;
                     lastUpdated := now;
                     source := "posthog.com/people";
                     dataVersion := "1.0" |};
      team := processedMembers |}, st).

(* ================================================================== *)
(** ** The route [/team/:id] *)

Module TeamRoutes.

Definition digitValue (radix : Z) (c : ascii) : option Z :=
  let n := Z.of_nat (nat_of_ascii c) in
  let d := if (48 <=? n)%Z && (n <=? 57)%Z then Some (n - 48)%Z
           else if (97 <=? n)%Z && (n <=? 122)%Z then Some (n - 87)%Z
           else if (65 <=? n)%Z && (n <=? 90)%Z then Some (n - 55)%Z
           else None in
  match d with
  | Some v => if (v <? radix)%Z then Some v else None
  | None => None
  end.

(** The value of the longest prefix of digits, and whether there was a
    digit. *)
Fixpoint readDigits (radix : Z) (acc : Z) (seen : bool) (s : string)
  : option Z :=
  match s with
  | EmptyString => if seen then Some acc else None
  | String c r =>
      match digitValue radix c with
      | Some v => readDigits radix (acc * radix + v)%Z true r
      | None => if seen then Some acc else None
      end
  end.

Definition readUnsigned (s : string) : option Z :=
  match s with
  | String "0" (String "x" r) => readDigits 16 0 false r
  | String "0" (String "X" r) => readDigits 16 0 false r
  | _ => readDigits 10 0 false s
  end.

(** [parseInt(s)] on ASCII text: [None] is [NaN].  The result is the
    integer the digits denote, which is the number JavaScript returns as
    long as it is a safe integer (below 2^53 in absolute value); from
    there on JavaScript rounds. *)
Definition parseInt (s : string) : option Z :=
  match trimStart s with
  | String "-" r => option_map Z.opp (readUnsigned r)
  | String "+" r => readUnsigned r
  | t => readUnsigned t
  end.

(** The decimal text of an integer. *)
Definition decimalText (z : Z) : number :=
  DecimalString.NilZero.string_of_int (Z.to_int z).

(** [v === n] for a value of the dataset and a result of [parseInt] that
    is a safe integer or [NaN]. *)
Definition strictEqNumber (v : json) (n : option Z) : bool :=
  match v, n with
  | JNum t, Some z => t =? decimalText z
  | _, _ => false
  end.

(** What the handler answers: the status and the body. *)
Record Response : Type := {
  statusCode : nat;
  body_success : bool;
  body_data : option EnrichedMember;
  body_error : option string
}.

(** [loadTeamData]: the file is read when nothing is cached yet; reading
    may throw. *)
Definition loadTeamData (teamData : option FinalData)
  (readFile : completion FinalData) : completion FinalData * option FinalData :=
  match teamData with
  | Some d => (Normal d, teamData)
  | None =>
      match readFile with
      | Normal d => (Normal d, Some d)
      | Throw m => (Throw m, None)
      end
  end.

(** The handler of [/team/:id] on the loaded dataset. *)
Definition getMember (loaded : FinalData) (id : string) : Response :=
  match find (fun m => strictEqNumber (em_id m) (parseInt id)) (team loaded) with
  | None =>
      {| statusCode := 404; body_success := false; body_data := None;
         body_error := Some "Team member not found" |}
  | Some member =>
      {| statusCode := 200; body_success := true; body_data := Some member;
         body_error := None |}
  end.

(** The handler with the cache and the file. *)
Definition teamById (teamData : option FinalData)
  (readFile : completion FinalData) (id : string)
  : completion Response * option FinalData :=
  let (loaded, cache) := loadTeamData teamData readFile in
  (bind loaded (fun d => Normal (getMember d id)), cache).

End TeamRoutes.

Import TeamRoutes.


(* ================================================================== *)
(** ** The team data processor: the statistics by region *)

(** [codes.includes(v)] for an array of string literals. *)
Definition arrayIncludes (codes : list string) (v : text) : bool :=
  match v with
  | Str s => existsb (String.eqb s) codes
  | _ => false
  end.

Definition europeCodes : list string :=
  [ "GB"; "DE"; "FR"; "ES"; "NL"; "BE"; "PL"; "NO"; "DK"; "AT"; "FI"; "IE";
    "CZ"; "HR"; "HU"; "BG"; "GR" ].

Definition southAmericaCodes : list string :=
  [ "BR"; "AR"; "UY"; "CL"; "CO" ].

(** The array of the filter of ['Other']. *)
Definition regionCodes : list string :=
  [ "US"; "CA"; "GB"; "DE"; "FR"; "ES"; "NL"; "BE"; "PL"; "NO"; "DK"; "AT";
    "FI"; "IE"; "CZ"; "HR"; "HU"; "BG"; "GR"; "BR"; "AR"; "UY"; "CL"; "CO" ].

Definition inNorthAmerica (m : EnrichedMember) : bool :=
  strictEq (em_country m) "US" || strictEq (em_country m) "CA".

Definition inEurope (m : EnrichedMember) : bool :=
  arrayIncludes europeCodes (em_country m).

Definition inSouthAmerica (m : EnrichedMember) : bool :=
  arrayIncludes southAmericaCodes (em_country m).

Definition inOther (m : EnrichedMember) : bool :=
  negb (arrayIncludes regionCodes (em_country m)).

(** The object [regions] of the statistics. *)
Record Regions : Type := {
  northAmerica : list EnrichedMember;
  europe : list EnrichedMember;
  southAmerica : list EnrichedMember;
  other : list EnrichedMember
}.

Definition regionsOf (processedMembers : list EnrichedMember) : Regions :=
  {| northAmerica := filter inNorthAmerica processedMembers;
     europe := filter inEurope processedMembers;
     southAmerica := filter inSouthAmerica processedMembers;
     other := filter inOther processedMembers |}.

(* ================================================================== *)
(** ** The routes [/team] and [/applicant], and the server that keeps the
       two module variables between requests *)

Module Server.

(** What [/team] answers. *)
Record TeamListResponse : Type := {
  list_success : bool;
  list_metadata : Metadata;
  list_team : list EnrichedMember
}.

(** The handler of [/team]. *)
Definition teamList (teamData : option FinalData)
  (readFile : completion FinalData)
  : completion TeamListResponse * option FinalData :=
  let (loaded, cache) := loadTeamData teamData readFile in
  (bind loaded (fun d => Normal {| list_success := true;
                                   list_metadata := metadata d;
                                   list_team := team d |}), cache).

Section Applicant.
(** The parsed content of [applicant.json], an object. *)
Context {Profile : Type}.

(** [loadApplicantData] *)
Definition loadApplicantData (applicantData : option Profile)
  (readFile : completion Profile) : completion Profile * option Profile :=
  match applicantData with
  | Some d => (Normal d, applicantData)
  | None =>
      match readFile with
      | Normal d => (Normal d, Some d)
      | Throw m => (Throw m, None)
      end
  end.

(** What [/applicant] answers: [{ success: true, data }]. *)
Definition applicant (applicantData : option Profile)
  (readFile : completion Profile)
  : completion (bool * Profile) * option Profile :=
  let (loaded, cache) := loadApplicantData applicantData readFile in
  (bind loaded (fun d => Normal (true, d)), cache).

(** The two module variables [teamData] and [applicantData]. *)
Record Caches : Type := {
  teamCache : option FinalData;
  applicantCache : option Profile
}.

(** What the two files hold when a request arrives. *)
Record Files : Type := {
  teamFile : completion FinalData;
  applicantFile : completion Profile
}.

Inductive request : Type :=
| GetTeam
| GetTeamById (id : string)
| GetApplicant.

Inductive reply : Type :=
| TeamReply (r : TeamListResponse)
| MemberReply (r : Response)
| ApplicantReply (success : bool) (data : Profile).

(** One request: the handler of its route runs on the module variables. *)
Definition handle (caches : Caches) (files : Files) (req : request)
  : completion reply * Caches :=
  match req with
  | GetTeam =>
      let (r, c) := teamList (teamCache caches) (teamFile files) in
      (bind r (fun x => Normal (TeamReply x)),
       {| teamCache := c; applicantCache := applicantCache caches |})
  | GetTeamById id =>
      let (r, c) := teamById (teamCache caches) (teamFile files) id in
      (bind r (fun x => Normal (MemberReply x)),
       {| teamCache := c; applicantCache := applicantCache caches |})
  | GetApplicant =>
      let (r, c) := applicant (applicantCache caches) (applicantFile files) in
      (bind r (fun x => Normal (ApplicantReply (fst x) (snd x))),
       {| teamCache := teamCache caches; applicantCache := c |})
  end.

(** The requests of a process, one after the other. *)
Fixpoint serve (caches : Caches) (requests : list (Files * request))
  : list (completion reply) * Caches :=
  match requests with
  | [] => ([], caches)
  | (files, req) :: rest =>
      let (r, c) := handle caches files req in
      let (rs, c') := serve c rest in
      (r :: rs, c')
  end.

End Applicant.

End Server.

Import Server.

(* ================================================================== *)
(** ** The vocabulary of the properties *)

(** [big] contains [small] when letter case is ignored: a part of [big]
    equals [small] up to the case of its letters. *)
Definition ContainsIgnoringCase (big small : string) : Prop :=
  exists a m b, big = a ++ m ++ b /\ toLowerCase m = toLowerCase small.

(** The ten placeholder words, written out for the statement of C4. *)
Definition placeholderWords : list string :=
  [ "world"; "earth"; "remote"; "nomad"; "digital nomad"; "everywhere";
    "nowhere"; "n/a"; "tbd"; "various" ].

(** The locations rule 1 of the normaliser replaces. *)
Definition SentinelInput (loc : text) : Prop :=
  loc = Undefined \/ loc = Null \/ loc = Str "" \/ loc = Str "null" \/
  exists s, loc = Str s /\ toLowerCase s = "world".

(** Applying the normaliser to what it returned. *)
Definition normalizeTwice (loc ctry : text) : completion string :=
  bind (normalizeLocation loc ctry) (fun n => normalizeLocation (Str n) ctry).


(** [r] is [s] with some characters removed: it is not longer, and it is
    [s] itself when it is as long. *)
Definition Shrinks (s r : string) : Prop :=
  String.length r <= String.length s
  /\ (String.length r = String.length s -> r = s).

(** The key the processor computes for a result of the geocoder. *)
Definition resultKey (r : GeocodeResult) : string :=
  locationKey (res_location r) (res_country r).

Definition memberKey (m : RawTeamRecord) : string :=
  locationKey (location m) (country m).

Definition coordsOf (g : Geocoded) : Coordinates :=
  {| c_latitude := lat g; c_longitude := lng g;
     c_formattedAddress := geo_formattedAddress g |}.

(** What the processor emits for one member, given the lookup map. *)
Definition emit (lm : list (string * Coordinates)) (m : RawTeamRecord)
  : option EnrichedMember :=
  option_map (enrich m) (assoc (memberKey m) lm).

Definition unresolved (lm : list (string * Coordinates)) (m : RawTeamRecord)
  : bool := negb (mapHas (memberKey m) lm).

(** The dataset and the warnings of a run of the processor. *)
Definition teamOf (now : string) (ms : list RawTeamRecord)
  (rs : list GeocodeResult) : list EnrichedMember :=
  team (fst (processTeamData now ms rs)).

Definition warningsOf (now : string) (ms : list RawTeamRecord)
  (rs : list GeocodeResult) : list string :=
  warnings (snd (processTeamData now ms rs)).

(** The value of a list of decimal digits read after [acc]. *)
Fixpoint uintValue (d : Decimal.uint) (acc : Z) : Z :=
  match d with
  | Decimal.Nil => acc
  | Decimal.D0 l => uintValue l (acc * 10 + 0)
  | Decimal.D1 l => uintValue l (acc * 10 + 1)
  | Decimal.D2 l => uintValue l (acc * 10 + 2)
  | Decimal.D3 l => uintValue l (acc * 10 + 3)
  | Decimal.D4 l => uintValue l (acc * 10 + 4)
  | Decimal.D5 l => uintValue l (acc * 10 + 5)
  | Decimal.D6 l => uintValue l (acc * 10 + 6)
  | Decimal.D7 l => uintValue l (acc * 10 + 7)
  | Decimal.D8 l => uintValue l (acc * 10 + 8)
  | Decimal.D9 l => uintValue l (acc * 10 + 9)
  end%Z.

(** [m.id === parseInt(id)] *)
Definition hasIdentifier (id : string) (m : EnrichedMember) : bool :=
  strictEqNumber (em_id m) (parseInt id).

Definition notFound : Response :=
  {| statusCode := 404; body_success := false; body_data := None;
     body_error := Some "Team member not found" |}.

Definition found (m : EnrichedMember) : Response :=
  {| statusCode := 200; body_success := true; body_data := Some m;
     body_error := None |}.

(** The name of the city of a reverse result; none is the empty name. *)
Definition cityName (c : text) : string :=
  match c with
  | Str s => s
  | _ => ""
  end.



(** The records that share the key [k], in their order. *)
Definition sharing (k : string) (ms : list RawTeamRecord) : list RawTeamRecord :=
  filter (fun m => memberKey m =? k) ms.

(** What the location map holds for a key once [ms] have been added to a
    map that held [before] for it. *)
Definition entryAfter (before : option LocationData) (ms : list RawTeamRecord)
  : option LocationData :=
  match before, ms with
  | Some d, _ =>
      Some {| loc_location := loc_location d;
              loc_country := loc_country d;
              loc_count := loc_count d + List.length ms;
              loc_members := (loc_members d ++ map fullName ms)%list |}
  | None, [] => None
  | None, m :: _ =>
      Some {| loc_location := location m;
              loc_country := country m;
              loc_count := List.length ms;
              loc_members := map fullName ms |}
  end.

(** Every entry of the location set sits under the key of its own
    location and country. *)
Definition keyed (lm : list (string * LocationData)) : Prop :=
  forall k d, In (k, d) lm ->
              k = locationKey (loc_location d) (loc_country d).

(** The forward requests of a trace, in order. *)
Definition forwardRequests (l : list event) : list string :=
  flat_map (fun e => match e with
                     | Geocode q => [q]
                     | _ => []
                     end) l.

(** The query the loop builds for an entry of the location set. *)
Definition queryFor (d : LocationData) : completion string :=
  bind (normalizeLocation (loc_location d) (loc_country d))
       (fun n => Normal (searchQuery n (loc_country d))).

(** The result stored for an entry belongs to it. *)
Definition resultOf (loc : string * LocationData)
  (kr : string * GeocodeResult) : Prop :=
  fst kr = fst loc /\ res_key (snd kr) = fst loc /\ res_data (snd kr) = snd loc.

(** A country that names no inherited property of an object literal. *)
Definition plainCountry (c : text) : bool :=
  negb (existsb (String.eqb (interpolate c)) objectPrototypeKeys).

(** The sum of the counts of a location set. *)
Definition totalCount (lm : list (string * LocationData)) : nat :=
  list_sum (map (fun e => loc_count (snd e)) lm).

(** The keys of a list in the order of their first occurrence, after the
    keys [seen]. *)
Fixpoint firstOccurrences (seen : list string) (l : list string)
  : list string :=
  match l with
  | [] => []
  | k :: r =>
      if existsb (String.eqb k) seen then firstOccurrences seen r
      else k :: firstOccurrences (seen ++ [k])%list r
  end.

(** A result as the geocoding loop stores it: either it succeeded and has
    coordinates and no error, or it failed and has an error and no
    coordinates. *)
Definition wellFormed (r : GeocodeResult) : Prop :=
  (success r = true /\ geocoded r <> None /\ error r = None)
  \/ (success r = false /\ geocoded r = None /\ error r <> None).

(** What the loop of step 3 does for one query. *)
Definition pace (q : string) : list event := [Geocode q; Delay 1000].

(** What one turn of the loop of step 4 does to the outside: a request
    and the delay, or the request alone. *)
Definition verifyBlock (b : list event) : Prop :=
  exists la lo, b = [Reverse la lo; Delay 1000] \/ b = [Reverse la lo].

(** The result the loop of step 3 stores for an entry. *)
Definition storedFor (loc : string * LocationData)
  (kr : string * GeocodeResult) : Prop :=
  resultOf loc kr /\ wellFormed (snd kr).

(** What a request for the team gets from the dataset [d]; a request for
    the applicant is left open. *)
Definition teamAnswer {Profile : Type} (d : FinalData) (req : request)
  (r : completion (@reply Profile)) : Prop :=
  match req with
  | GetTeam =>
      r = Normal (TeamReply {| list_success := true;
                               list_metadata := metadata d;
                               list_team := team d |})
  | GetTeamById id => r = Normal (MemberReply (getMember d id))
  | GetApplicant => True
  end.

Definition isTeamRequest (req : request) : bool :=
  match req with
  | GetApplicant => false
  | _ => true
  end.

(** The requests of one module among the requests of a process, and the
    replies they got. *)
Definition isApplicantRequest (req : request) : bool :=
  negb (isTeamRequest req).

Definition requestsFor {Profile : Type} (wanted : request -> bool)
  (requests : list (@Files Profile * request))
  : list (@Files Profile * request) :=
  filter (fun fr => wanted (snd fr)) requests.

Definition repliesTo {Profile : Type} (wanted : request -> bool)
  (requests : list (@Files Profile * request))
  (replies : list (completion (@reply Profile)))
  : list (completion (@reply Profile)) :=
  map snd (filter (fun p => wanted (snd (fst p))) (combine requests replies)).

(** A string made of ASCII white space only: tab, line feed, vertical
    tab, form feed, carriage return, space. *)
Fixpoint allSpaces (s : string) : bool :=
  match s with
  | EmptyString => true
  | String c r => isSpace c && allSpaces r
  end.

(** Text of ASCII characters.  On such text the functions of [JS] that
    depend on the character set ([toLowerCase], [trim], the class [\s] of
    the two regular expressions, the white space [parseInt] skips) are
    those of JavaScript.  On other text JavaScript also changes the case
    of letters outside ASCII and counts U+00A0, U+FEFF and the like as
    white space, which the embedding does not: the properties that depend
    on these functions are stated for ASCII text. *)
Definition asciiChar (c : ascii) : bool := (nat_of_ascii c <? 128)%nat.

Fixpoint asciiOnly (s : string) : bool :=
  match s with
  | EmptyString => true
  | String c r => asciiChar c && asciiOnly r
  end.

Definition asciiText (t : text) : bool :=
  match t with
  | Str s => asciiOnly s
  | _ => true
  end.

(** [Number.isSafeInteger]: the integers a JavaScript number holds
    exactly.  On them [parseInt] and [===] are those of the integers; from
    2^53 on JavaScript rounds, which the embedding does not. *)
Definition isSafeInteger (z : Z) : bool := (Z.abs z <? 2 ^ 53)%Z.

(* ================================================================== *)
(** ** Sample data *)

Definition person (n : number) (first last : string) (loc ctry : text)
  : RawTeamRecord :=
  {| squeakId := JNum n; firstName := Str first; lastName := Str last;
     companyRole := JStr "Engineer"; location := loc; country := ctry;
     avatar := None; biography := JNull; color := JNull; pronouns := JNull;
     pineappleOnPizza := JBool true; startDate := JNull;
     teams := None; leadTeams := None |}.

Definition place (la lo : number) (address : string) : Geocoded :=
  {| lat := la; lng := lo; geo_formattedAddress := Str address;
     geo_city := Undefined; geo_country := Undefined;
     geo_countryCode := Undefined |}.

Definition resolved (loc ctry : text) (la lo : number) (address : string)
  : GeocodeResult :=
  {| res_key := locationKey loc ctry;
     res_data := {| loc_location := loc; loc_country := ctry;
                    loc_count := 1; loc_members := [] |};
     geocoded := Some (place la lo address);
     success := true; error := None |}.

Definition unresolvedResult (loc ctry : text) : GeocodeResult :=
  {| res_key := locationKey loc ctry;
     res_data := {| loc_location := loc; loc_country := ctry;
                    loc_count := 1; loc_members := [] |};
     geocoded := None; success := false; error := Some "No results found" |}.

Definition sampleResults : list GeocodeResult :=
  [ resolved (Str "Paris") (Str "FR") "48.8534951" "2.3483915" "Paris, France";
    unresolvedResult (Str "Atlantis") (Str "GR") ].

Definition sampleDataset : FinalData :=
  fst (processTeamData "now"
         [ person "7" "Ada" "L" (Str "Paris") (Str "FR");
           person "8" "Bo" "K" (Str "Atlantis") (Str "GR");
           person "12" "Cy" "M" (Str "Paris") (Str "FR") ]
         sampleResults).

(** A provider for the examples: it finds Paris and Berlin, finds nothing
    for Atlantis and fails on every other query; its reverse answer for
    Paris names no city and its reverse answer for Berlin names Hamburg. *)
Definition sampleProvider : Provider :=
  {| World := nat;
     geocode := fun w query =>
       (if query =? "Paris, FR"
        then Normal (Some [ {| latitude := "48.8534951";
                               longitude := "2.3483915";
                               formattedAddress := Str "Paris, France";
                               city := Str "Paris";
                               hit_country := Str "France";
                               countryCode := Str "FR" |} ])
        else if query =? "Berlin, DE"
        then Normal (Some [ {| latitude := "52.5170365";
                               longitude := "13.3888599";
                               formattedAddress := Str "Berlin, Deutschland";
                               city := Str "Berlin";
                               hit_country := Str "Deutschland";
                               countryCode := Str "DE" |} ])
        else if query =? "Atlantis, GR" then Normal (Some [])
        else Throw "request failed", S w);
     reverse := fun w la lo =>
       (if la =? "48.8534951"
        then Normal (Some [ {| latitude := la; longitude := lo;
                               formattedAddress := Str "Lyon, France";
                               city := Undefined;
                               hit_country := Str "France";
                               countryCode := Str "FR" |} ])
        else if la =? "52.5170365"
        then Normal (Some [ {| latitude := la; longitude := lo;
                               formattedAddress := Str "Hamburg, Deutschland";
                               city := Str "Hamburg";
                               hit_country := Str "Deutschland";
                               countryCode := Str "DE" |} ])
        else Throw "request failed", S w) |}.

Definition sampleVerifyState : VerifyState sampleProvider :=
  Build_VerifyState sampleProvider 0 [] [].

Definition sampleMembers : list RawTeamRecord :=
  [ person "7" "Ada" "L" (Str "Paris") (Str "FR");
    person "8" "Bo" "K" (Str "Atlantis") (Str "GR");
    person "9" "Di" "N" (Str "Berlin") (Str "DE");
    person "12" "Cy" "M" (Str "Paris") (Str "FR");
    person "13" "Ed" "O" Null Null ].

Definition emptyOutput : GeocodeOutput :=
  {| summary := {| total := 0; successful := 0; failed := 0;
                   problematic := 0; summary_mismatches := 0 |};
     problematicLocations := []; failedGeocode := [];
     verificationMismatches := []; allResults := []; trace := [] |}.

Definition sampleOutput : GeocodeOutput :=
  Eval vm_compute in
    match geocodeTeamData sampleProvider 0 sampleMembers with
    | Normal o => o
    | Throw _ => emptyOutput
    end.

Definition ada : RawTeamRecord := person "7" "Ada" "L" (Str "Paris") (Str "FR").

Definition cy : RawTeamRecord := person "12" "Cy" "M" (Str "Paris") (Str "FR").

Definition parisPlace : Geocoded :=
  place "48.8534951" "2.3483915" "Paris, France".

Definition sampleRecords : list RawTeamRecord :=
  [ ada; person "8" "Bo" "K" (Str "Atlantis") (Str "GR"); cy ].

Definition berlinMismatch : VerificationMismatch :=
  {| original := Str "Berlin"; originalCountry := Str "DE";
     coordinates := "52.5170365, 13.3888599";
     reverseGeocodedTo := "Hamburg, Deutschland";
     membersAffected := 1 |}.

(** The module variables before the first request and after a load, and
    the two files present or missing. *)
Definition emptyCaches : @Caches unit :=
  {| teamCache := None; applicantCache := None |}.

Definition loadedCaches : @Caches unit :=
  {| teamCache := Some sampleDataset; applicantCache := None |}.

Definition goodFiles : @Files unit :=
  {| teamFile := Normal sampleDataset; applicantFile := Normal tt |}.

Definition missingFiles : @Files unit :=
  {| teamFile := Throw "ENOENT"; applicantFile := Throw "ENOENT" |}.

(** The results of the sample run for Paris and for Berlin. *)
Definition parisResult : GeocodeResult :=
  Eval vm_compute in
    nth 1 (allResults sampleOutput) (unresolvedResult Null Null).

Definition berlinResult : GeocodeResult :=
  Eval vm_compute in
    nth 3 (allResults sampleOutput) (unresolvedResult Null Null).






(** A record whose location is the text "null", and the result of a
    record without a location in the same country. *)
Definition flo : RawTeamRecord :=
  person "21" "Flo" "P" (Str "null") (Str "US").

Definition nullResult : GeocodeResult :=
  resolved Null (Str "US") "64.7511" "-147.3494"
           "North Pole, Alaska, United States".

(* ================================================================== *)
(** * Properties *)


(** ** Strings *)

Section StringFacts.

Lemma lowerChar_idempotent (c : ascii) : lowerChar (lowerChar c) = lowerChar c.
Proof.
  destruct c as [[] [] [] [] [] [] [] []]; reflexivity.
Qed.

Lemma toLowerCase_idempotent (s : string) :
  toLowerCase (toLowerCase s) = toLowerCase s.
Proof.
  induction s as [|c s IH]; simpl; [reflexivity|].
  now rewrite lowerChar_idempotent, IH.
Qed.

Lemma toLowerCase_app (a b : string) :
  toLowerCase (a ++ b) = toLowerCase a ++ toLowerCase b.
Proof.
  induction a as [|c a IH]; simpl; [reflexivity|]. now rewrite IH.
Qed.

Lemma toLowerCase_length (s : string) :
  String.length (toLowerCase s) = String.length s.
Proof.
  induction s as [|c s IH]; simpl; congruence.
Qed.

(** A lower-cased string splits where its source does. *)
Lemma toLowerCase_split (s x y : string) :
  toLowerCase s = x ++ y ->
  exists a b, s = a ++ b /\ toLowerCase a = x /\ toLowerCase b = y.
Proof.
  revert s. induction x as [|c x IH]; intros s H.
  - exists EmptyString, s. auto.
  - destruct s as [|d s]; simpl in H; [discriminate|].
    injection H as Hc Hs. destruct (IH _ Hs) as (a & b & -> & Ha & Hb).
    exists (String d a), b. simpl. now rewrite Hc, Ha.
Qed.

Lemma append_assoc (a b c : string) : (a ++ b) ++ c = a ++ (b ++ c).
Proof.
  induction a as [|x a IH]; simpl; [reflexivity|]. now rewrite IH.
Qed.

Lemma append_empty_r (a : string) : a ++ "" = a.
Proof.
  induction a as [|x a IH]; simpl; [reflexivity|]. now rewrite IH.
Qed.

Lemma startsWith_iff (s p : string) :
  startsWith s p = true <-> exists b, s = p ++ b.
Proof.
  revert s. induction p as [|c p IH]; intros s.
  - split; [exists s; reflexivity | destruct s; reflexivity].
  - destruct s as [|d s]; simpl.
    + split; [discriminate | intros [b H]; discriminate].
    + rewrite andb_true_iff, Ascii.eqb_eq, IH. split.
      * intros [-> [b ->]]. now exists b.
      * intros [b H]. injection H as -> ->. split; [reflexivity | now exists b].
Qed.

Lemma includes_nil (p : string) : includes "" p = startsWith "" p.
Proof.
  unfold includes. now rewrite orb_false_r.
Qed.

Lemma includes_cons (c : ascii) (s p : string) :
  includes (String c s) p = startsWith (String c s) p || includes s p.
Proof.
  reflexivity.
Qed.

Lemma includes_iff (s p : string) :
  includes s p = true <-> exists a b, s = a ++ p ++ b.
Proof.
  induction s as [|c s IH].
  - rewrite includes_nil, startsWith_iff. split.
    + intros [b H]. now exists EmptyString, b.
    + intros (a & b & H). destruct a; simpl in H.
      * now exists b.
      * discriminate.
  - rewrite includes_cons, orb_true_iff, startsWith_iff, IH. split.
    + intros [[b H] | (a & b & ->)].
      * now exists EmptyString, b.
      * now exists (String c a), b.
    + intros (a & b & H). destruct a as [|d a]; simpl in H.
      * left. now exists b.
      * right. injection H as _ ->. now exists a, b.
Qed.

Lemma includes_empty (s : string) : includes s "" = true.
Proof.
  apply includes_iff. now exists EmptyString, s.
Qed.

End StringFacts.

Lemma includes_lower_iff (big small : string) :
  includes (toLowerCase big) (toLowerCase small) = true
  <-> ContainsIgnoringCase big small.
Proof.
  rewrite includes_iff. split.
  - intros (x & y & H).
    destruct (toLowerCase_split _ _ _ H) as (a & r & -> & Ha & Hr).
    destruct (toLowerCase_split _ _ _ Hr) as (m & b & -> & Hm & Hb).
    now exists a, m, b.
  - intros (a & m & b & -> & Hm).
    exists (toLowerCase a), (toLowerCase b).
    now rewrite !toLowerCase_app, Hm.
Qed.

(** ** The classifier *)

Lemma placeholderWords_lower :
  forall w, In w placeholderWords -> toLowerCase w = w.
Proof.
  intros w H. simpl in H.
  repeat (destruct H as [<- | H]; [reflexivity|]). contradiction.
Qed.

(** C4. The classifier answers [true] exactly for a location that is
    missing, null, empty or the text "null", and for a string that
    contains, letter case ignored, one of the ten placeholder words. *)
Theorem C4_problematic_iff (loc : text) :
  isPotentiallyProblematic loc = true <->
  (loc = Undefined \/ loc = Null \/ loc = Str "" \/ loc = Str "null" \/
   exists s w, loc = Str s /\ In w placeholderWords /\ ContainsIgnoringCase s w).
Proof.
  unfold isPotentiallyProblematic.
  destruct loc as [| |s]; [simpl; tauto | simpl; tauto |].
  unfold truthy, strictEq, interpolate.
  destruct (String.eqb_spec s "") as [->|Hne]; [simpl; tauto|].
  destruct (String.eqb_spec s "null") as [->|Hnn]; [simpl; tauto|].
  cbn [negb orb].
  change problematicKeywords with placeholderWords.
  rewrite existsb_exists. split.
  - intros (w & Hw & Hi). do 4 right. exists s, w. repeat split; auto.
    apply includes_lower_iff. now rewrite (placeholderWords_lower _ Hw).
  - intros [H|[H|[H|[H|(s' & w & H & Hw & Hc)]]]]; try discriminate;
      try (injection H as ->; congruence).
    injection H as <-. exists w. split; [assumption|].
    apply includes_lower_iff in Hc. now rewrite (placeholderWords_lower _ Hw) in Hc.
Qed.

Lemma C4_problematic_iff_witness :
  isPotentiallyProblematic (Str "Remote (Europe)") = true.
Proof.
  apply (proj2 (C4_problematic_iff (Str "Remote (Europe)"))).
  do 4 right. exists "Remote (Europe)", "remote".
  split; [reflexivity|]. split; [simpl; tauto|].
  exists "", "Remote", " (Europe)". split; reflexivity.
Defined.

(** ** The normaliser *)

(** C6. The record "Greater Seattle Area" / "US" normalises to "Seattle";
    the query built from it is "Seattle, US", and that is the request the
    geocoding loop sends for it, whatever the provider and the state. *)
Theorem C6_greater_seattle_query :
  normalizeLocation (Str "Greater Seattle Area") (Str "US") = Normal "Seattle"
  /\ searchQuery "Seattle" (Str "US") = "Seattle, US"
  /\ forall (P : Provider) (st : GeocodeState P) (key : string) (n : nat)
            (ms : list string),
       exists st',
         geocodeStep P st
           (key, {| loc_location := Str "Greater Seattle Area";
                    loc_country := Str "US";
                    loc_count := n; loc_members := ms |}) = Normal st'
         /\ events st' = (events st ++ [Geocode "Seattle, US"; Delay 1000])%list.
Proof.
  split; [reflexivity|]. split; [reflexivity|].
  intros P st key n ms. unfold geocodeStep.
  change (normalizeLocation _ _) with (@Normal string "Seattle").
  cbn [bind snd loc_country].
  change (searchQuery "Seattle" (Str "US")) with "Seattle, US".
  destruct (geocode P (world st) "Seattle, US") as [answer w].
  destruct answer as [[[|hit hits]|]|message];
    (eexists; split; [reflexivity|]); cbn [events];
    now rewrite <- app_assoc.
Qed.

(** C7. The record with location null and country null normalises to the
    sentinel "North Pole" and is classified problematic; the sentinel is
    not empty; and every location that is missing, null, empty, the text
    "null", or "world" in any letter case normalises to it, whatever the
    country. *)
Theorem C7_sentinel_location :
  (normalizeLocation Null Null = Normal "North Pole"
   /\ isPotentiallyProblematic Null = true)
  /\ "North Pole" <> ""
  /\ forall loc ctry, SentinelInput loc ->
       normalizeLocation loc ctry = Normal "North Pole".
Proof.
  split; [split; reflexivity|]. split; [discriminate|].
  intros loc ctry [->|[->|[->|[->|(s & -> & H)]]]]; try reflexivity.
  unfold normalizeLocation. cbn [interpolate]. rewrite H.
  now rewrite orb_true_r.
Qed.

Lemma C7_sentinel_location_witness :
  normalizeLocation (Str "WoRLD") (Str "US") = Normal "North Pole".
Proof.
  apply (proj2 (proj2 C7_sentinel_location) (Str "WoRLD") (Str "US")).
  do 4 right. exists "WoRLD". split; reflexivity.
Defined.


(** White space alone normalises to the empty string, which normalises to
    the sentinel. *)
Lemma blank_location_not_idempotent :
  normalizeLocation (Str " ") (Str "US") = Normal ""
  /\ normalizeTwice (Str " ") (Str "US") = Normal "North Pole".
Proof.
  split; reflexivity.
Qed.

Section NormalizerFacts.

Lemma includes_inside (a t b p : string) :
  includes t p = true -> includes (a ++ t ++ b) p = true.
Proof.
  rewrite !includes_iff. intros (x & y & ->).
  exists (a ++ x), (y ++ b). now rewrite !append_assoc.
Qed.

Lemma trimStart_suffix (s : string) : exists a, s = a ++ trimStart s.
Proof.
  induction s as [|c s [a IH]]; simpl.
  - now exists EmptyString.
  - destruct (isSpace c).
    + exists (String c a). simpl. now rewrite <- IH.
    + now exists EmptyString.
Qed.

Lemma trimEnd_prefix (s : string) : exists b, s = trimEnd s ++ b.
Proof.
  induction s as [|c s [b IH]]; simpl.
  - now exists EmptyString.
  - destruct (trimEnd s) as [|d t] eqn:E.
    + destruct (isSpace c).
      * now exists (String c s).
      * exists s. reflexivity.
    + exists b. simpl. now rewrite IH.
Qed.

Lemma includes_trim (s p : string) :
  includes (trim s) p = true -> includes s p = true.
Proof.
  intros H. unfold trim in H.
  destruct (trimStart_suffix s) as [a Ha].
  destruct (trimEnd_prefix (trimStart s)) as [b Hb].
  rewrite Ha, Hb. now apply includes_inside.
Qed.

Lemma startsWith_empty (s : string) : startsWith s "" = true.
Proof.
  destruct s; reflexivity.
Qed.

Lemma includes_beforeComma (s : string) : includes (beforeComma s) "," = false.
Proof.
  induction s as [|c s IH]; [reflexivity|].
  simpl beforeComma. destruct (Ascii.eqb c ",") eqn:E; [reflexivity|].
  rewrite includes_cons, IH, orb_false_r.
  cbn [startsWith]. rewrite Ascii.eqb_sym, E. reflexivity.
Qed.



Lemma length_app (a b : string) :
  String.length (a ++ b) = String.length a + String.length b.
Proof.
  induction a as [|c a IH]; simpl; [reflexivity | now rewrite IH].
Qed.

Lemma length_zero (a : string) : String.length a = 0 -> a = "".
Proof.
  destruct a; [reflexivity | discriminate].
Qed.

Lemma Shrinks_refl (s : string) : Shrinks s s.
Proof.
  split; [lia | reflexivity].
Qed.

Lemma Shrinks_trans (s r t : string) : Shrinks s r -> Shrinks r t -> Shrinks s t.
Proof.
  intros [L1 E1] [L2 E2]. split; [lia|].
  intros E. assert (String.length t = String.length r) as E' by lia.
  pose proof (E2 E'). subst t. now apply E1.
Qed.

(** Removing one block of characters shrinks. *)
Lemma Shrinks_cut (a d b : string) : Shrinks (a ++ d ++ b) (a ++ b).
Proof.
  split.
  - rewrite !length_app. lia.
  - rewrite !length_app. intros E.
    assert (d = "") as -> by (apply length_zero; lia). reflexivity.
Qed.

Lemma Shrinks_cons (c : ascii) (s r : string) :
  Shrinks s r -> Shrinks (String c s) (String c r).
Proof.
  intros [L E]. split; simpl; [lia|].
  intros H. f_equal. apply E. lia.
Qed.

Lemma Shrinks_trimStart (s : string) : Shrinks s (trimStart s).
Proof.
  destruct (trimStart_suffix s) as [a H].
  rewrite H at 1. apply (Shrinks_cut "" a (trimStart s)).
Qed.

Lemma Shrinks_trimEnd (s : string) : Shrinks s (trimEnd s).
Proof.
  destruct (trimEnd_prefix s) as [b H].
  rewrite H at 1.
  pose proof (Shrinks_cut (trimEnd s) b "") as C.
  now rewrite !append_empty_r in C.
Qed.

Lemma Shrinks_trim (s : string) : Shrinks s (trim s).
Proof.
  eapply Shrinks_trans; [apply Shrinks_trimStart | apply Shrinks_trimEnd].
Qed.

Lemma drop_app (p b : string) : drop (String.length p) (p ++ b) = b.
Proof.
  induction p as [|c p IH]; simpl; [now destruct b | exact IH].
Qed.

Lemma replace_unfold (s p r : string) :
  replace s p r
  = if startsWith s p then r ++ drop (String.length p) s
    else match s with
         | EmptyString => EmptyString
         | String c t => String c (replace t p r)
         end.
Proof.
  destruct s; reflexivity.
Qed.

(** Where the pattern occurs, [replace] with the empty string removes it. *)
Lemma replace_cut (s p : string) :
  includes s p = true ->
  exists a b, s = a ++ p ++ b /\ replace s p "" = a ++ b.
Proof.
  induction s as [|c s IH]; intros H; rewrite replace_unfold.
  - rewrite includes_nil in H. rewrite H.
    apply startsWith_iff in H as [b Hb].
    exists "", b. split; [exact Hb|].
    destruct p; [|discriminate]. simpl in Hb. now subst b.
  - destruct (startsWith (String c s) p) eqn:S.
    + apply startsWith_iff in S as [b Hb]. exists "", b.
      split; [exact Hb|]. rewrite Hb. now rewrite drop_app.
    + rewrite includes_cons, S in H. simpl in H.
      destruct (IH H) as (a & b & E & R).
      exists (String c a), b. simpl. now rewrite R, E.
Qed.

Lemma afterWord_split (w s rest : string) :
  afterWord w s = Some rest -> exists x, s = x ++ rest.
Proof.
  revert s. induction w as [|a w IH]; intros s H.
  - destruct s; injection H as <-; now exists "".
  - destruct s as [|b s]; simpl in H; [discriminate|].
    destruct (Ascii.eqb a (lowerChar b)); [|discriminate].
    destruct (IH _ H) as [x ->]. now exists (String b x).
Qed.

Lemma Shrinks_replaceGreaterSpaces (s : string) :
  Shrinks s (replaceGreaterSpaces s).
Proof.
  induction s as [|d t IH].
  - simpl. apply Shrinks_refl.
  - assert (Shrinks (String d t) (String d (replaceGreaterSpaces t))) as K
        by now apply Shrinks_cons.
    unfold replaceGreaterSpaces; fold replaceGreaterSpaces.
    destruct (afterWord "greater" (String d t)) as [[|c r]|] eqn:A;
      try exact K.
    destruct (isSpace c); [|exact K].
    destruct (afterWord_split _ _ _ A) as [x Hx].
    destruct (trimStart_suffix (String c r)) as [y Hy].
    set (T := trimStart (String c r)) in *.
    rewrite Hx, Hy, <- append_assoc.
    apply (Shrinks_cut "" (x ++ y) T).
Qed.

Lemma replaceSpacesArea_cons (c : ascii) (t : string) :
  replaceSpacesArea (String c t)
  = if isSpace c then
      match afterWord "area" (trimStart t) with
      | Some rest => rest
      | None => String c (replaceSpacesArea t)
      end
    else String c (replaceSpacesArea t).
Proof.
  reflexivity.
Qed.

Lemma Shrinks_replaceSpacesArea (s : string) :
  Shrinks s (replaceSpacesArea s).
Proof.
  induction s as [|c t IH]; [apply Shrinks_refl|].
  assert (Shrinks (String c t) (String c (replaceSpacesArea t))) as K
      by now apply Shrinks_cons.
  rewrite replaceSpacesArea_cons. destruct (isSpace c); [|exact K].
  destruct (afterWord "area" (trimStart t)) as [rest|] eqn:A; [|exact K].
  destruct (afterWord_split _ _ _ A) as [x Hx].
  destruct (trimStart_suffix t) as [y Hy].
  rewrite Hy, Hx, <- append_assoc.
  apply (Shrinks_cut "" (String c (y ++ x)) rest).
Qed.

Lemma Shrinks_stripGreaterArea (s : string) : Shrinks s (stripGreaterArea s).
Proof.
  unfold stripGreaterArea.
  destruct (includes s "Greater" && includes s "Area");
    [|apply Shrinks_refl].
  eapply Shrinks_trans;
    [apply Shrinks_replaceGreaterSpaces | apply Shrinks_replaceSpacesArea].
Qed.

Lemma stripUK_cases (ctry : text) (s : string) :
  (strictEq ctry "GB" && includes s ", UK" = false /\ stripUK ctry s = s)
  \/ (strictEq ctry "GB" && includes s ", UK" = true
      /\ String.length (stripUK ctry s) + 4 = String.length s).
Proof.
  unfold stripUK.
  destruct (strictEq ctry "GB" && includes s ", UK") eqn:G; [right|left; auto].
  split; [reflexivity|].
  apply andb_true_iff in G as [_ G].
  destruct (replace_cut _ _ G) as (a & b & E & ->).
  rewrite E. rewrite !length_app. simpl. lia.
Qed.

Lemma beforeComma_prefix (s : string) : exists b, s = beforeComma s ++ b.
Proof.
  induction s as [|c s [b IH]]; simpl; [now exists ""|].
  destruct (Ascii.eqb c ","); [now exists (String c s)|].
  exists b. simpl. now rewrite <- IH.
Qed.

Lemma stripCountryName_length (ctry : text) (s r : string) :
  stripCountryName ctry s = Normal r -> String.length r <= String.length s.
Proof.
  unfold stripCountryName.
  destruct (truthy ctry && includes s ",");
    [|intros H; injection H as <-; lia].
  destruct (getProperty countryNames (interpolate ctry)) as [name| |];
    [|discriminate|intros H; injection H as <-; lia].
  destruct (negb (name =? "") && includes _ _);
    intros H; injection H as <-; [|lia].
  destruct (Shrinks_trim (beforeComma s)) as [L _].
  destruct (beforeComma_prefix s) as [b E].
  rewrite E at 2. rewrite length_app. lia.
Qed.


End NormalizerFacts.

Section AsciiFacts.

Lemma asciiOnly_app (a b : string) :
  asciiOnly (a ++ b) = asciiOnly a && asciiOnly b.
Proof.
  induction a as [|c a IH]; [reflexivity|].
  cbn [append asciiOnly]. now rewrite IH, andb_assoc.
Qed.

Lemma asciiOnly_suffix (a b : string) :
  asciiOnly (a ++ b) = true -> asciiOnly b = true.
Proof.
  rewrite asciiOnly_app, andb_true_iff. tauto.
Qed.

Lemma asciiOnly_prefix (a b : string) :
  asciiOnly (a ++ b) = true -> asciiOnly a = true.
Proof.
  rewrite asciiOnly_app, andb_true_iff. tauto.
Qed.

Lemma asciiOnly_trimStart (s : string) :
  asciiOnly s = true -> asciiOnly (trimStart s) = true.
Proof.
  destruct (trimStart_suffix s) as [a E]. intros H.
  apply (asciiOnly_suffix a). now rewrite <- E.
Qed.

Lemma asciiOnly_trimEnd (s : string) :
  asciiOnly s = true -> asciiOnly (trimEnd s) = true.
Proof.
  destruct (trimEnd_prefix s) as [b E]. intros H.
  apply (asciiOnly_prefix _ b). now rewrite <- E.
Qed.

Lemma asciiOnly_trim (s : string) :
  asciiOnly s = true -> asciiOnly (trim s) = true.
Proof.
  intros H. unfold trim. now apply asciiOnly_trimEnd, asciiOnly_trimStart.
Qed.

Lemma asciiOnly_stripUK (ctry : text) (s : string) :
  asciiOnly s = true -> asciiOnly (stripUK ctry s) = true.
Proof.
  intros H. unfold stripUK.
  destruct (strictEq ctry "GB"); cbn [andb]; [|exact H].
  destruct (includes s ", UK") eqn:I; [|exact H].
  destruct (replace_cut _ _ I) as (a & b & E & ->).
  rewrite E, !asciiOnly_app, !andb_true_iff in H.
  rewrite asciiOnly_app, andb_true_iff. tauto.
Qed.

Lemma asciiOnly_afterWord (w s rest : string) :
  afterWord w s = Some rest -> asciiOnly s = true -> asciiOnly rest = true.
Proof.
  intros A H. destruct (afterWord_split _ _ _ A) as [x E].
  rewrite E in H. exact (asciiOnly_suffix _ _ H).
Qed.

Lemma replaceGreaterSpaces_cons (d : ascii) (t : string) :
  replaceGreaterSpaces (String d t)
  = match afterWord "greater" (String d t) with
    | Some (String c r as rest) =>
        if isSpace c then trimStart rest
        else String d (replaceGreaterSpaces t)
    | _ => String d (replaceGreaterSpaces t)
    end.
Proof.
  reflexivity.
Qed.

Lemma asciiOnly_replaceGreaterSpaces (s : string) :
  asciiOnly s = true -> asciiOnly (replaceGreaterSpaces s) = true.
Proof.
  induction s as [|d t IH]; [reflexivity|]. intros H.
  assert (asciiOnly (String d (replaceGreaterSpaces t)) = true) as K.
  { cbn [asciiOnly] in *. apply andb_true_iff in H.
    apply andb_true_iff. split; [tauto | apply IH; tauto]. }
  rewrite replaceGreaterSpaces_cons.
  destruct (afterWord "greater" (String d t)) as [[|c r]|] eqn:A;
    try exact K.
  destruct (isSpace c); [|exact K].
  apply asciiOnly_trimStart. exact (asciiOnly_afterWord _ _ _ A H).
Qed.

Lemma asciiOnly_replaceSpacesArea (s : string) :
  asciiOnly s = true -> asciiOnly (replaceSpacesArea s) = true.
Proof.
  induction s as [|c t IH]; [reflexivity|]. intros H.
  cbn [asciiOnly] in H. apply andb_true_iff in H. destruct H as [H1 H2].
  assert (asciiOnly (String c (replaceSpacesArea t)) = true) as K
      by (cbn [asciiOnly]; rewrite H1; now apply IH).
  rewrite replaceSpacesArea_cons.
  destruct (isSpace c); [|exact K].
  destruct (afterWord "area" (trimStart t)) as [rest|] eqn:A; [|exact K].
  apply (asciiOnly_afterWord _ _ _ A). now apply asciiOnly_trimStart.
Qed.

Lemma asciiOnly_stripGreaterArea (s : string) :
  asciiOnly s = true -> asciiOnly (stripGreaterArea s) = true.
Proof.
  intros H. unfold stripGreaterArea.
  destruct (includes s "Greater" && includes s "Area"); [|exact H].
  now apply asciiOnly_replaceSpacesArea, asciiOnly_replaceGreaterSpaces.
Qed.

Lemma asciiOnly_beforeComma (s : string) :
  asciiOnly s = true -> asciiOnly (beforeComma s) = true.
Proof.
  destruct (beforeComma_prefix s) as [b E]. intros H.
  apply (asciiOnly_prefix _ b). now rewrite <- E.
Qed.

Lemma asciiOnly_stripCountryName (ctry : text) (s r : string) :
  stripCountryName ctry s = Normal r ->
  asciiOnly s = true -> asciiOnly r = true.
Proof.
  intros H A. unfold stripCountryName in H.
  destruct (truthy ctry && includes s ","); [|congruence].
  destruct (getProperty countryNames (interpolate ctry)) as [name| |];
    [|discriminate|congruence].
  destruct (negb (name =? "") &&
            includes (toLowerCase s) (toLowerCase name)); [|congruence].
  injection H as <-. now apply asciiOnly_trim, asciiOnly_beforeComma.
Qed.

(** What the normaliser returns for ASCII text is ASCII text. *)
Lemma asciiOnly_normalizeLocation (loc ctry : text) (n : string) :
  asciiText loc = true ->
  normalizeLocation loc ctry = Normal n -> asciiOnly n = true.
Proof.
  intros A H. unfold normalizeLocation in H.
  destruct (negb (truthy loc) || strictEq loc "null"
            || (toLowerCase (interpolate loc) =? "world")) eqn:C.
  - injection H as <-. reflexivity.
  - destruct loc as [| |s]; try discriminate C.
    cbn [interpolate] in H. cbn [asciiText] in A.
    apply (asciiOnly_stripCountryName _ _ _ H).
    now apply asciiOnly_stripGreaterArea, asciiOnly_stripUK, asciiOnly_trim.
Qed.

End AsciiFacts.



(** ** Maps *)

Section MapFacts.
Context {A : Type}.

Lemma assoc_mapSet (k k' : string) (v : A) (m : list (string * A)) :
  assoc k (mapSet k' v m) = if k' =? k then Some v else assoc k m.
Proof.
  induction m as [|[k0 x] m IH]; simpl.
  - reflexivity.
  - destruct (String.eqb_spec k0 k') as [->|N]; simpl.
    + destruct (String.eqb_spec k' k); reflexivity.
    + rewrite IH. destruct (String.eqb_spec k0 k) as [->|N'];
        [|reflexivity].
      destruct (String.eqb_spec k' k); [congruence | reflexivity].
Qed.

Lemma assoc_In (k : string) (v : A) (m : list (string * A)) :
  assoc k m = Some v -> In (k, v) m.
Proof.
  induction m as [|[k0 x] m IH]; simpl; [discriminate|].
  destruct (String.eqb_spec k0 k) as [->|N].
  - intros H. injection H as ->. now left.
  - intros H. right. auto.
Qed.

Lemma assoc_None_iff (k : string) (m : list (string * A)) :
  assoc k m = None <-> ~ In k (mapKeys m).
Proof.
  induction m as [|[k0 x] m IH]; simpl; [tauto|].
  destruct (String.eqb_spec k0 k) as [->|N].
  - split; [discriminate | tauto].
  - rewrite IH. tauto.
Qed.

Lemma mapKeys_mapSet_old (k : string) (v : A) (m : list (string * A)) :
  In k (mapKeys m) -> mapKeys (mapSet k v m) = mapKeys m.
Proof.
  induction m as [|[k0 x] m IH]; simpl; [contradiction|].
  destruct (String.eqb_spec k0 k) as [->|N]; [reflexivity|].
  intros [H|H]; [congruence|]. simpl. now rewrite IH.
Qed.

Lemma mapSet_new (k : string) (v : A) (m : list (string * A)) :
  ~ In k (mapKeys m) -> mapSet k v m = (m ++ [(k, v)])%list.
Proof.
  induction m as [|[k0 x] m IH]; simpl; [reflexivity|].
  destruct (String.eqb_spec k0 k) as [->|N]; [tauto|].
  intros H. rewrite IH; tauto.
Qed.

End MapFacts.

(** ** The processor *)

Section ProcessorFacts.

Lemma notNull_app {A : Type} (l1 l2 : list (option A)) :
  notNull (l1 ++ l2)%list = (notNull l1 ++ notNull l2)%list.
Proof.
  induction l1 as [|[a|] l1 IH]; simpl; [reflexivity | now rewrite IH | exact IH].
Qed.

Lemma mapMembers_spec (lm : list (string * Coordinates)) (ms : list RawTeamRecord) :
  forall st,
    fst (mapMembers lm st ms) = map (emit lm) ms
    /\ warnings (snd (mapMembers lm st ms))
       = (warnings st ++ map warningFor (filter (unresolved lm) ms))%list
    /\ processed (snd (mapMembers lm st ms))
       = processed st + List.length (notNull (map (emit lm) ms))
    /\ skipped (snd (mapMembers lm st ms))
       = skipped st + List.length (filter (unresolved lm) ms).
Proof.
  induction ms as [|m ms IH]; intros st; simpl.
  - rewrite app_nil_r. repeat split; try reflexivity; lia.
  - unfold processMember, emit, unresolved, mapHas. fold (memberKey m).
    destruct (assoc (memberKey m) lm) as [c|] eqn:E.
    + match goal with
      | |- context [mapMembers lm ?s ms] =>
          destruct (IH s) as (I1 & I2 & I3 & I4);
          destruct (mapMembers lm s ms) as [l st2]
      end.
      simpl in *. unfold emit, unresolved, mapHas in *. rewrite I1, I2, I3, I4.
      repeat split; try reflexivity; lia.
    + match goal with
      | |- context [mapMembers lm ?s ms] =>
          destruct (IH s) as (I1 & I2 & I3 & I4);
          destruct (mapMembers lm s ms) as [l st2]
      end.
      simpl in *. unfold emit, unresolved, mapHas in *. rewrite I1, I2, I3, I4.
      rewrite <- app_assoc. repeat split; try reflexivity; lia.
Qed.

Lemma teamOf_eq (now : string) (ms : list RawTeamRecord) (rs : list GeocodeResult) :
  teamOf now ms rs = notNull (map (emit (buildLocationMap rs)) ms).
Proof.
  unfold teamOf, processTeamData.
  pose proof (mapMembers_spec (buildLocationMap rs) ms
                {| processed := 0; skipped := 0; warnings := [] |}) as (H & _).
  destruct (mapMembers _ _ ms) as [l st]. simpl in *. now rewrite H.
Qed.

Lemma warningsOf_eq (now : string) (ms : list RawTeamRecord) (rs : list GeocodeResult) :
  warningsOf now ms rs
  = map warningFor (filter (unresolved (buildLocationMap rs)) ms).
Proof.
  unfold warningsOf, processTeamData.
  pose proof (mapMembers_spec (buildLocationMap rs) ms
                {| processed := 0; skipped := 0; warnings := [] |}) as (_ & H & _).
  destruct (mapMembers _ _ ms) as [l st]. simpl in *. now rewrite H.
Qed.

(** A key of the lookup map comes from a result that succeeded and has
    coordinates; with several such results the last one is kept. *)
Lemma addResult_lookup (k : string) (r : GeocodeResult)
  (lm : list (string * Coordinates)) :
  assoc k (addResult lm r)
  = match success r, geocoded r with
    | true, Some g => if resultKey r =? k then Some (coordsOf g) else assoc k lm
    | _, _ => assoc k lm
    end.
Proof.
  unfold addResult. destruct (success r); [|reflexivity].
  destruct (geocoded r) as [g|]; [|reflexivity].
  apply assoc_mapSet.
Qed.

Lemma buildLocationMap_source (rs : list GeocodeResult) :
  forall lm k c,
    assoc k (fold_left addResult rs lm) = Some c ->
    assoc k lm = Some c \/
    exists r g, In r rs /\ success r = true /\ geocoded r = Some g
                /\ resultKey r = k /\ c = coordsOf g.
Proof.
  induction rs as [|r rs IH]; intros lm k c H; simpl in *; [now left|].
  destruct (IH _ _ _ H) as [H1|(r' & g & Hin & Hs & Hg & Hk & Hc)].
  - rewrite addResult_lookup in H1.
    destruct (success r) eqn:S; [|now left].
    destruct (geocoded r) as [g|] eqn:G; [|now left].
    destruct (String.eqb_spec (resultKey r) k) as [E|N]; [|now left].
    injection H1 as <-. right. exists r, g. auto.
  - right. exists r', g. auto.
Qed.

Lemma buildLocationMap_absent (rs : list GeocodeResult) (k : string) :
  (forall r, In r rs -> resultKey r = k ->
             success r = false \/ geocoded r = None) ->
  assoc k (buildLocationMap rs) = None.
Proof.
  intros H. destruct (assoc k (buildLocationMap rs)) as [c|] eqn:E;
    [|reflexivity].
  apply buildLocationMap_source in E.
  destruct E as [E|(r & g & Hin & Hs & Hg & Hk & _)]; [discriminate|].
  destruct (H r Hin Hk); congruence.
Qed.

Lemma fold_addResult_keep (rs : list GeocodeResult) :
  forall lm k,
    (forall r, In r rs -> resultKey r <> k) ->
    assoc k (fold_left addResult rs lm) = assoc k lm.
Proof.
  induction rs as [|r rs IH]; intros lm k H; simpl; [reflexivity|].
  rewrite IH by (intros; apply H; now right).
  rewrite addResult_lookup.
  destruct (success r); [|reflexivity].
  destruct (geocoded r); [|reflexivity].
  destruct (String.eqb_spec (resultKey r) k) as [E|N]; [|reflexivity].
  exfalso. apply (H r); [now left | exact E].
Qed.

Lemma buildLocationMap_unique (rs : list GeocodeResult) (r : GeocodeResult)
  (g : Geocoded) :
  NoDup (map resultKey rs) -> In r rs ->
  success r = true -> geocoded r = Some g ->
  assoc (resultKey r) (buildLocationMap rs) = Some (coordsOf g).
Proof.
  unfold buildLocationMap. generalize (@nil (string * Coordinates)).
  induction rs as [|r0 rs IH]; intros lm ND Hin Hs Hg; [contradiction|].
  simpl in ND. inversion ND as [|? ? Hn ND']; subst.
  destruct Hin as [->|Hin]; simpl.
  - rewrite fold_addResult_keep.
    + rewrite addResult_lookup, Hs, Hg. now rewrite String.eqb_refl.
    + intros r' Hr' E. apply Hn. rewrite <- E. now apply in_map.
  - now apply IH.
Qed.

(** The key separates the location from the country when the location
    has no bar in it. *)
Lemma bar_free_cons (c : ascii) (s : string) :
  includes (String c s) "|" = false -> c <> "|"%char /\ includes s "|" = false.
Proof.
  rewrite includes_cons. intros H. apply orb_false_iff in H.
  destruct H as [H1 H2]. split; [|assumption].
  intros ->. simpl in H1. now rewrite startsWith_empty in H1.
Qed.

Lemma key_injective (s1 c1 s2 c2 : string) :
  includes s1 "|" = false -> includes s2 "|" = false ->
  s1 ++ "|" ++ c1 = s2 ++ "|" ++ c2 -> s1 = s2 /\ c1 = c2.
Proof.
  revert s2. induction s1 as [|a s1 IH]; intros [|b s2] H1 H2 E; simpl in E.
  - injection E as ->. auto.
  - injection E as <- _. apply bar_free_cons in H2. tauto.
  - injection E as -> _. apply bar_free_cons in H1. tauto.
  - injection E as -> E. apply bar_free_cons in H1, H2.
    destruct (IH s2) as [-> ->]; tauto.
Qed.

End ProcessorFacts.

(** C1, amended.  The key of a record and of a result is the text
    [`${location}|${country}`].  With at most one result per key: a record
    whose key is the key of a result that succeeded contributes exactly
    one member to the dataset, in its place, and that member carries the
    latitude, longitude and formatted address of the result unchanged; a
    record whose key is the key of no result that succeeded contributes
    nothing.  For a record and results whose locations and countries are
    strings and whose locations contain no bar, the key is the pair: a
    record whose pair of location and country has no result that
    succeeded contributes nothing. *)
Theorem C1_merge_by_location_key
  (now : string) (allResults : list GeocodeResult)
  (pre post : list RawTeamRecord) (member : RawTeamRecord) :
  (forall r g,
      NoDup (map resultKey allResults) ->
      In r allResults -> success r = true -> geocoded r = Some g ->
      resultKey r = locationKey (location member) (country member) ->
      exists e,
        teamOf now (pre ++ member :: post) allResults
        = (teamOf now pre allResults ++ e :: teamOf now post allResults)%list
        /\ em_latitude e = lat g
        /\ em_longitude e = lng g
        /\ em_formattedAddress e = geo_formattedAddress g
        /\ em_location e = location member
        /\ em_country e = country member
        /\ em_name e = fullName member)
  /\ ((forall r, In r allResults ->
                 resultKey r = locationKey (location member) (country member) ->
                 success r = false \/ geocoded r = None) ->
      teamOf now (pre ++ member :: post) allResults
      = (teamOf now pre allResults ++ teamOf now post allResults)%list)
  /\ (forall s c : string,
         location member = Str s -> country member = Str c ->
         includes s "|" = false ->
         (forall r, In r allResults ->
                    exists s' c',
                      res_location r = Str s' /\ res_country r = Str c'
                      /\ includes s' "|" = false) ->
         (forall r, In r allResults ->
                    res_location r = location member ->
                    res_country r = country member ->
                    success r = false \/ geocoded r = None) ->
         teamOf now (pre ++ member :: post) allResults
         = (teamOf now pre allResults ++ teamOf now post allResults)%list).
Proof.
  assert ((forall r, In r allResults ->
                     resultKey r
                     = locationKey (location member) (country member) ->
                     success r = false \/ geocoded r = None) ->
          teamOf now (pre ++ member :: post) allResults
          = (teamOf now pre allResults ++ teamOf now post allResults)%list)
    as Absent.
  { intros H.
    pose proof (buildLocationMap_absent _ _ H) as L.
    rewrite !teamOf_eq, map_app, notNull_app. simpl.
    unfold emit at 2. unfold memberKey. rewrite L. reflexivity. }
  split; [|split; [exact Absent|]].
  - intros r g ND Hin Hs Hg Hk.
    pose proof (buildLocationMap_unique _ _ _ ND Hin Hs Hg) as L.
    rewrite Hk in L.
    exists (enrich member (coordsOf g)).
    rewrite !teamOf_eq, map_app, notNull_app. simpl.
    unfold emit at 2. unfold memberKey. rewrite L. simpl.
    repeat split; reflexivity.
  - intros s c Hl Hc B Shape Pair. apply Absent.
    intros r Hin K.
    destruct (Shape r Hin) as (s' & c' & Hl' & Hc' & B').
    unfold resultKey in K. rewrite Hl, Hc, Hl', Hc' in K.
    unfold locationKey in K. cbn [interpolate] in K.
    destruct (key_injective _ _ _ _ B' B K) as [-> ->].
    apply (Pair r Hin); congruence.
Qed.

(** C1 fails as stated: a record whose pair of location and country has
    no result is given the coordinates of another pair with the same key
    text.  The record has the location "null" and the only result is for
    a record without a location in the same country; or the record is
    "Salem" in "OR|US" and the only result is for "Salem|OR" in "US". *)
Lemma C1_pair_without_result_is_emitted :
  ((forall r, In r [nullResult] ->
              (res_location r, res_country r) <> (location flo, country flo))
   /\ teamOf "now" [flo] [nullResult]
      = [ enrich flo (coordsOf (place "64.7511" "-147.3494"
                                      "North Pole, Alaska, United States")) ])
  /\ ((Str "Salem|OR", Str "US") <> (Str "Salem", Str "OR|US")
      /\ teamOf "now" [ person "22" "Gil" "Q" (Str "Salem") (Str "OR|US") ]
                [ resolved (Str "Salem|OR") (Str "US") "44.9392" "-123.0331"
                           "Salem, Oregon" ]
         = [ enrich (person "22" "Gil" "Q" (Str "Salem") (Str "OR|US"))
                    (coordsOf (place "44.9392" "-123.0331"
                                     "Salem, Oregon")) ]).
Proof.
  split; split; try reflexivity; try discriminate.
  intros r [<-|[]]. discriminate.
Qed.

(** C2. With at most one result per key: a record whose key has a failed
    result contributes no member to the dataset, and the processor warns
    about it once, in its place, with a text that holds the member's name,
    location and country. *)
Theorem C2_failed_key_skipped_and_warned
  (now : string) (allResults : list GeocodeResult)
  (pre post : list RawTeamRecord) (member : RawTeamRecord)
  (r : GeocodeResult) :
  NoDup (map resultKey allResults) ->
  In r allResults -> success r = false ->
  resultKey r = locationKey (location member) (country member) ->
  teamOf now (pre ++ member :: post) allResults
  = (teamOf now pre allResults ++ teamOf now post allResults)%list
  /\ warningsOf now (pre ++ member :: post) allResults
     = (warningsOf now pre allResults
        ++ warningFor member :: warningsOf now post allResults)%list
  /\ warningFor member
     = "⚠️  No coordinates found for: " ++ fullName member
       ++ " (" ++ interpolate (location member) ++ ", "
       ++ interpolate (country member) ++ ")".
Proof.
  intros ND Hin Hs Hk.
  assert (assoc (memberKey member) (buildLocationMap allResults) = None) as L.
  { apply buildLocationMap_absent. intros r' Hin' Hk'.
    assert (r' = r) as ->; [|now left].
    clear Hs. unfold memberKey in Hk'. rewrite <- Hk in Hk'.
    clear Hk. induction allResults as [|x xs IH]; [contradiction|].
    simpl in ND. inversion ND as [|? ? Hn ND']; subst.
    destruct Hin as [->|Hin], Hin' as [->|Hin']; auto.
    - exfalso. apply Hn. rewrite <- Hk'. now apply in_map.
    - exfalso. apply Hn. rewrite Hk'. now apply in_map. }
  split; [|split].
  - rewrite !teamOf_eq, map_app, notNull_app. simpl.
    unfold emit at 2. now rewrite L.
  - rewrite !warningsOf_eq, filter_app, map_app. simpl.
    unfold unresolved at 2. unfold mapHas. now rewrite L.
  - unfold warningFor, fullName. now rewrite !append_assoc.
Qed.

Lemma sampleResults_unique : NoDup (map resultKey sampleResults).
Proof.
  repeat constructor; simpl; intuition discriminate.
Defined.

Lemma C1_merge_by_location_key_witness :
  exists e,
    teamOf "now" ([] ++ person "7" "Ada" "L" (Str "Paris") (Str "FR") :: [])
           sampleResults
    = (teamOf "now" [] sampleResults ++ e :: teamOf "now" [] sampleResults)%list
    /\ em_latitude e = "48.8534951"
    /\ em_longitude e = "2.3483915"
    /\ em_formattedAddress e = Str "Paris, France"
    /\ em_location e = Str "Paris"
    /\ em_country e = Str "FR"
    /\ em_name e = "Ada L".
Proof.
  apply (proj1 (C1_merge_by_location_key "now" sampleResults [] []
                  (person "7" "Ada" "L" (Str "Paris") (Str "FR")))
               (resolved (Str "Paris") (Str "FR") "48.8534951" "2.3483915"
                         "Paris, France")
               (place "48.8534951" "2.3483915" "Paris, France")
               sampleResults_unique).
  - simpl. tauto.
  - reflexivity.
  - reflexivity.
  - reflexivity.
Defined.

Lemma C2_failed_key_skipped_and_warned_witness :
  teamOf "now" ([] ++ person "8" "Bo" "K" (Str "Atlantis") (Str "GR") :: [])
         sampleResults
  = (teamOf "now" [] sampleResults ++ teamOf "now" [] sampleResults)%list
  /\ warningsOf "now"
       ([] ++ person "8" "Bo" "K" (Str "Atlantis") (Str "GR") :: [])
       sampleResults
     = (warningsOf "now" [] sampleResults
        ++ warningFor (person "8" "Bo" "K" (Str "Atlantis") (Str "GR"))
        :: warningsOf "now" [] sampleResults)%list
  /\ warningFor (person "8" "Bo" "K" (Str "Atlantis") (Str "GR"))
     = "⚠️  No coordinates found for: "
       ++ fullName (person "8" "Bo" "K" (Str "Atlantis") (Str "GR"))
       ++ " (" ++ "Atlantis" ++ ", " ++ "GR" ++ ")".
Proof.
  apply (C2_failed_key_skipped_and_warned "now" sampleResults [] []
           (person "8" "Bo" "K" (Str "Atlantis") (Str "GR"))
           (unresolvedResult (Str "Atlantis") (Str "GR"))
           sampleResults_unique).
  - simpl. tauto.
  - reflexivity.
  - reflexivity.
Defined.

(** ** The route *)

Lemma find_first {A : Type} (f : A -> bool) (pre post : list A) (x : A) :
  (forall y, In y pre -> f y = false) -> f x = true ->
  find f (pre ++ x :: post) = Some x.
Proof.
  induction pre as [|y pre IH]; intros Hpre Hx; simpl.
  - now rewrite Hx.
  - rewrite (Hpre y) by now left. apply IH; [|assumption].
    intros z Hz. apply Hpre. now right.
Qed.

Section ParseIntFacts.
Import Decimal.

Lemma uintValue_acc (d : uint) :
  forall acc : positive, uintValue d (Zpos acc) = Zpos (Pos.of_uint_acc d acc).
Proof.
  induction d; intros acc; cbn [uintValue Pos.of_uint_acc];
    try reflexivity; rewrite <- IHd; f_equal; lia.
Qed.

Lemma uintValue_of_uint (d : uint) : uintValue d 0 = Z.of_N (Pos.of_uint d).
Proof.
  induction d; cbn [uintValue Pos.of_uint]; try reflexivity;
    try exact IHd; apply (uintValue_acc d).
Qed.

Lemma readDigits_uint (d : uint) :
  forall acc seen,
    readDigits 10 acc seen (NilEmpty.string_of_uint d)
    = match d with
      | Nil => if seen then Some acc else None
      | _ => Some (uintValue d acc)
      end.
Proof.
  induction d; intros acc seen; try reflexivity;
    cbn [NilEmpty.string_of_uint readDigits];
    match goal with
    | |- context [digitValue 10 ?c] =>
        let v := eval vm_compute in (digitValue 10 c) in
        change (digitValue 10 c) with v
    end;
    cbv beta iota; rewrite IHd; destruct d; reflexivity.
Qed.

Lemma to_uint_nonnil (p : positive) : Pos.to_uint p <> Nil.
Proof.
  intros E. pose proof (DecimalPos.Unsigned.of_to p) as H.
  rewrite E in H. discriminate.
Qed.

Lemma readUnsigned_uint (d : uint) :
  readUnsigned (NilEmpty.string_of_uint d)
  = readDigits 10 0 false (NilEmpty.string_of_uint d).
Proof.
  destruct d; try reflexivity. destruct d; reflexivity.
Qed.

Lemma parseInt_uint (d : uint) :
  d <> Nil ->
  parseInt (NilEmpty.string_of_uint d) = Some (uintValue d 0).
Proof.
  intros N.
  assert (parseInt (NilEmpty.string_of_uint d)
          = readUnsigned (NilEmpty.string_of_uint d)) as ->
      by (destruct d; reflexivity).
  rewrite readUnsigned_uint, readDigits_uint.
  destruct d; [contradiction | reflexivity ..].
Qed.

Lemma parseInt_minus (s : string) :
  parseInt (String "-" s) = option_map Z.opp (readUnsigned s).
Proof.
  reflexivity.
Qed.

(** Reading back the decimal text of an integer gives the integer. *)
Lemma parseInt_decimalText (z : Z) : parseInt (decimalText z) = Some z.
Proof.
  unfold decimalText. destruct z as [|p|p]; [reflexivity | |].
  - cbn [Z.to_int NilZero.string_of_int].
    pose proof (to_uint_nonnil p) as N.
    assert (NilZero.string_of_uint (Pos.to_uint p)
            = NilEmpty.string_of_uint (Pos.to_uint p)) as ->
        by (destruct (Pos.to_uint p); [contradiction | reflexivity ..]).
    rewrite (parseInt_uint _ N), uintValue_of_uint.
    now rewrite DecimalPos.Unsigned.of_to.
  - cbn [Z.to_int NilZero.string_of_int].
    pose proof (to_uint_nonnil p) as N.
    assert (NilZero.string_of_uint (Pos.to_uint p)
            = NilEmpty.string_of_uint (Pos.to_uint p)) as ->
        by (destruct (Pos.to_uint p); [contradiction | reflexivity ..]).
    rewrite parseInt_minus, readUnsigned_uint, readDigits_uint.
    destruct (Pos.to_uint p) eqn:E; [contradiction | ..];
      rewrite <- E, uintValue_of_uint, DecimalPos.Unsigned.of_to;
      reflexivity.
Qed.

Lemma asciiOnly_string_of_uint (d : Decimal.uint) :
  asciiOnly (NilEmpty.string_of_uint d) = true.
Proof.
  induction d; cbn [NilEmpty.string_of_uint asciiOnly]; auto.
Qed.

(** The decimal text of an integer is ASCII text. *)
Lemma asciiOnly_decimalText (z : Z) : asciiOnly (decimalText z) = true.
Proof.
  unfold decimalText. destruct z as [|p|p]; [reflexivity|..];
    cbn [Z.to_int NilZero.string_of_int];
    pose proof (asciiOnly_string_of_uint (Pos.to_uint p)) as H;
    destruct (Pos.to_uint p); cbn [NilZero.string_of_uint asciiOnly];
    try reflexivity; exact H.
Qed.

End ParseIntFacts.

(** C9, amended.  Once the dataset is loaded the handler does not throw:
    it answers 404 with [success: false] and an error text, or 200 with
    [success: true] and a member of the dataset.  The identifier is read
    by [parseInt].  For an identifier of ASCII characters: when
    [parseInt] reads no number from it the answer is 404; when it reads a
    safe integer, the answer is 404 if no member has that number as its
    id, and otherwise 200 with the first member that has it.  The decimal
    text of a safe integer is read as that integer. *)
Theorem C9_member_by_identifier
  (cache : option FinalData) (readFile : completion FinalData)
  (loaded : FinalData) (id : string) :
  fst (loadTeamData cache readFile) = Normal loaded ->
  fst (teamById cache readFile id) = Normal (getMember loaded id)
  /\ (getMember loaded id = notFound
      \/ exists m, In m (team loaded) /\ getMember loaded id = found m)
  /\ (asciiOnly id = true -> parseInt id = None ->
      getMember loaded id = notFound)
  /\ (forall z : Z,
         asciiOnly id = true -> parseInt id = Some z ->
         isSafeInteger z = true ->
         ((forall m, In m (team loaded) -> em_id m <> JNum (decimalText z)) ->
          getMember loaded id = notFound)
         /\ (forall pre m post,
                team loaded = (pre ++ m :: post)%list ->
                (forall x, In x pre -> em_id x <> JNum (decimalText z)) ->
                em_id m = JNum (decimalText z) ->
                getMember loaded id = found m))
  /\ (forall z : Z,
         isSafeInteger z = true ->
         asciiOnly (decimalText z) = true
         /\ parseInt (decimalText z) = Some z).
Proof.
  intros L.
  assert ((forall m, In m (team loaded) -> hasIdentifier id m = false) ->
          getMember loaded id = notFound) as Nobody.
  { intros H. unfold getMember. fold (hasIdentifier id).
    destruct (find (hasIdentifier id) (team loaded)) as [m|] eqn:F;
      [|reflexivity].
    apply find_some in F. destruct F as [Hin Hm].
    rewrite (H m Hin) in Hm. discriminate. }
  assert (forall pre m post,
             team loaded = (pre ++ m :: post)%list ->
             (forall x, In x pre -> hasIdentifier id x = false) ->
             hasIdentifier id m = true ->
             getMember loaded id = found m) as First.
  { intros pre m post E Hpre Hm. unfold getMember.
    fold (hasIdentifier id). rewrite E.
    now rewrite (find_first _ _ _ _ Hpre Hm). }
  assert (forall z m, parseInt id = Some z ->
                      (hasIdentifier id m = true
                       <-> em_id m = JNum (decimalText z))) as Has.
  { intros z m Pz. unfold hasIdentifier, strictEqNumber. rewrite Pz.
    destruct (em_id m) as [| |b|t|t]; try (split; discriminate).
    rewrite String.eqb_eq. split; congruence. }
  split; [|split; [|split; [|split]]].
  - unfold teamById. destruct (loadTeamData cache readFile) as [c k].
    simpl in *. now rewrite L.
  - unfold getMember.
    destruct (find _ (team loaded)) as [m|] eqn:F; [|now left].
    right. exists m. apply find_some in F. split; [tauto | reflexivity].
  - intros _ Pn. apply Nobody. intros m _.
    unfold hasIdentifier, strictEqNumber. rewrite Pn.
    now destruct (em_id m).
  - intros z _ Pz _. split.
    + intros H. apply Nobody. intros m Hm.
      destruct (hasIdentifier id m) eqn:E; [|reflexivity].
      apply (Has z m Pz) in E. now destruct (H m Hm).
    + intros pre m post E Hpre Hm. apply (First pre m post E).
      * intros x Hx. destruct (hasIdentifier id x) eqn:K; [|reflexivity].
        apply (Has z x Pz) in K. now destruct (Hpre x Hx).
      * now apply (Has z m Pz).
  - intros z _. split;
      [apply asciiOnly_decimalText | apply parseInt_decimalText].
Qed.

(** C9 fails as stated: no member of the sample dataset has the
    identifier "12abc", as a number or as a string, and the lookup
    answers 200 with the member whose id is 12. *)
Lemma C9_other_identifier_answers_200 :
  (forall m, In m (team sampleDataset) ->
             em_id m <> JNum "12abc" /\ em_id m <> JStr "12abc")
  /\ getMember sampleDataset "12abc" = found (enrich cy (coordsOf parisPlace))
  /\ getMember sampleDataset "12abc" <> notFound.
Proof.
  split; [|split; [reflexivity | discriminate]].
  intros m Hm. vm_compute in Hm.
  destruct Hm as [<-|[<-|[]]]; split; discriminate.
Qed.

Lemma C9_member_by_identifier_witness :
  fst (teamById None (Normal sampleDataset) "99")
  = Normal (getMember sampleDataset "99")
  /\ getMember sampleDataset "99" = notFound
  /\ getMember sampleDataset "12" = found (enrich cy (coordsOf parisPlace))
  /\ getMember sampleDataset "seven" = notFound.
Proof.
  destruct (C9_member_by_identifier None (Normal sampleDataset)
              sampleDataset "99" eq_refl) as (H1 & _ & _ & H4 & _).
  destruct (C9_member_by_identifier None (Normal sampleDataset)
              sampleDataset "12" eq_refl) as (_ & _ & _ & K4 & _).
  destruct (C9_member_by_identifier None (Normal sampleDataset)
              sampleDataset "seven" eq_refl) as (_ & _ & S3 & _).
  split; [exact H1|]. split; [|split].
  - apply (proj1 (H4 99%Z eq_refl eq_refl eq_refl)).
    intros m Hm. vm_compute in Hm.
    destruct Hm as [<-|[<-|[]]]; discriminate.
  - apply (proj2 (K4 12%Z eq_refl eq_refl eq_refl)
                 [enrich ada (coordsOf parisPlace)]
                 (enrich cy (coordsOf parisPlace)) []).
    + reflexivity.
    + intros x [<-|[]]. discriminate.
    + reflexivity.
  - apply S3; reflexivity.
Defined.

(** ** The verification pass *)

Section VerificationFacts.
Variable P : Provider.

Lemma cityLower_cityName (c : text) : cityLower c = toLowerCase (cityName c).
Proof.
  destruct c; reflexivity.
Qed.

Lemma matchesReverse_iff (o a : string) (c : text) :
  matchesReverse o a c = true
  <-> ContainsIgnoringCase a o \/ ContainsIgnoringCase o (cityName c).
Proof.
  unfold matchesReverse.
  now rewrite orb_true_iff, cityLower_cityName, !includes_lower_iff.
Qed.






End VerificationFacts.


(** C10. When the city of the reverse result is missing, null or empty,
    the comparison succeeds whatever the address and the original
    location are, and the entry adds no mismatch. *)
Theorem C10_absent_city_always_matches
  (P : Provider) (st : VerifyState P) (loc : GeocodeResult) (g : Geocoded)
  (rev : GeoHit) (more : list GeoHit) (w : World P) :
  geocoded loc = Some g ->
  reverse P (v_world st) (lat g) (lng g) = (Normal (Some (rev :: more)), w) ->
  city rev = Undefined \/ city rev = Null \/ city rev = Str "" ->
  (forall originalLocation address : string,
      matchesReverse originalLocation address (city rev) = true)
  /\ mismatches (verifyStep P st loc) = mismatches st.
Proof.
  intros Hg Hr Hc.
  assert (forall o a, matchesReverse o a (city rev) = true) as M.
  { intros o a. unfold matchesReverse.
    assert (cityLower (city rev) = "") as ->
        by (destruct Hc as [->|[->| ->]]; reflexivity).
    now rewrite includes_empty, orb_true_r. }
  split; [exact M|].
  unfold verifyStep. rewrite Hg, Hr.
  destruct (res_location loc) as [| |o]; try reflexivity.
  destruct (formattedAddress rev) as [| |a]; try reflexivity.
  cbn [mismatches]. now rewrite M.
Qed.



Lemma C10_absent_city_always_matches_witness :
  (forall originalLocation address : string,
      matchesReverse originalLocation address Undefined = true)
  /\ mismatches
       (verifyStep sampleProvider sampleVerifyState
          (resolved (Str "Paris") (Str "FR") "48.8534951" "2.3483915"
                    "Paris, France"))
     = [].
Proof.
  apply (C10_absent_city_always_matches sampleProvider sampleVerifyState
           (resolved (Str "Paris") (Str "FR") "48.8534951" "2.3483915"
                     "Paris, France")
           (place "48.8534951" "2.3483915" "Paris, France")
           {| latitude := "48.8534951"; longitude := "2.3483915";
              formattedAddress := Str "Lyon, France"; city := Undefined;
              hit_country := Str "France"; countryCode := Str "FR" |}
           [] 1).
  - reflexivity.
  - reflexivity.
  - now left.
Defined.

(** ** The location set *)

Section LocationSetFacts.

Lemma collectMember_lookup (lm : list (string * LocationData))
  (m : RawTeamRecord) (k : string) :
  assoc k (collectMember lm m)
  = if memberKey m =? k then entryAfter (assoc k lm) [m] else assoc k lm.
Proof.
  unfold collectMember. fold (memberKey m). unfold mapHas.
  destruct (String.eqb_spec (memberKey m) k) as [<-|N].
  - destruct (assoc (memberKey m) lm) as [d|] eqn:E.
    + rewrite E, assoc_mapSet, String.eqb_refl. simpl.
      now rewrite Nat.add_1_r.
    + rewrite assoc_mapSet, String.eqb_refl.
      rewrite assoc_mapSet, String.eqb_refl. reflexivity.
  - destruct (assoc (memberKey m) lm) as [d|] eqn:E.
    + rewrite E, assoc_mapSet.
      now destruct (String.eqb_spec (memberKey m) k).
    + rewrite assoc_mapSet, String.eqb_refl, assoc_mapSet.
      destruct (String.eqb_spec (memberKey m) k); [congruence|].
      rewrite assoc_mapSet.
      now destruct (String.eqb_spec (memberKey m) k).
Qed.

Lemma entryAfter_step (before : option LocationData) (m : RawTeamRecord)
  (ms : list RawTeamRecord) :
  entryAfter (entryAfter before [m]) ms = entryAfter before (m :: ms).
Proof.
  destruct before as [d|]; simpl.
  - f_equal. f_equal; [lia|]. now rewrite <- app_assoc.
  - f_equal. 
Qed.

Lemma collect_lookup (ms : list RawTeamRecord) :
  forall (lm : list (string * LocationData)) (k : string),
    assoc k (fold_left collectMember ms lm)
    = entryAfter (assoc k lm) (sharing k ms).
Proof.
  induction ms as [|m ms IH]; intros lm k; simpl.
  - destruct (assoc k lm) as [d|]; simpl; [|reflexivity].
    destruct d; simpl. now rewrite Nat.add_0_r, app_nil_r.
  - rewrite IH, collectMember_lookup.
    destruct (String.eqb_spec (memberKey m) k) as [E|N].
    + apply entryAfter_step.
    + reflexivity.
Qed.

Lemma collectMember_keys (lm : list (string * LocationData))
  (m : RawTeamRecord) :
  mapKeys (collectMember lm m)
  = if mapHas (memberKey m) lm then mapKeys lm
    else (mapKeys lm ++ [memberKey m])%list.
Proof.
  unfold collectMember. fold (memberKey m). unfold mapHas.
  destruct (assoc (memberKey m) lm) as [d|] eqn:E.
  - rewrite E. apply mapKeys_mapSet_old.
    apply assoc_In in E. change (memberKey m) with (fst (memberKey m, d)).
    now apply in_map.
  - assert (~ In (memberKey m) (mapKeys lm)) as N by now apply assoc_None_iff.
    rewrite assoc_mapSet, String.eqb_refl.
    rewrite mapKeys_mapSet_old.
    + rewrite (mapSet_new _ _ _ N). unfold mapKeys. now rewrite map_app.
    + rewrite (mapSet_new _ _ _ N). unfold mapKeys. rewrite map_app.
      apply in_or_app. right. now left.
Qed.

Lemma collect_keys_NoDup (ms : list RawTeamRecord) :
  forall lm : list (string * LocationData),
    NoDup (mapKeys lm) -> NoDup (mapKeys (fold_left collectMember ms lm)).
Proof.
  induction ms as [|m ms IH]; intros lm ND; simpl; [assumption|].
  apply IH. rewrite collectMember_keys. unfold mapHas.
  destruct (assoc (memberKey m) lm) eqn:E; [assumption|].
  apply assoc_None_iff in E.
  apply NoDup_app; [assumption | repeat constructor; simpl; tauto |].
  intros x Hx [<-|[]]. contradiction.
Qed.

Lemma In_assoc (lm : list (string * LocationData)) (k : string)
  (d : LocationData) :
  NoDup (mapKeys lm) -> In (k, d) lm -> assoc k lm = Some d.
Proof.
  induction lm as [|[k0 d0] lm IH]; intros ND H; [contradiction|].
  simpl in *. inversion ND as [|? ? Hn ND']; subst.
  destruct H as [H|H].
  - injection H as -> ->. now rewrite String.eqb_refl.
  - destruct (String.eqb_spec k0 k) as [->|N]; [|auto].
    exfalso. apply Hn. change k with (fst (k, d)). now apply in_map.
Qed.

Lemma collectLocations_keyed (ms : list RawTeamRecord) :
  keyed (collectLocations ms).
Proof.
  intros k d H.
  assert (NoDup (mapKeys (collectLocations ms))) as ND
      by (apply collect_keys_NoDup; constructor).
  apply (In_assoc _ _ _ ND) in H.
  unfold collectLocations in H. rewrite collect_lookup in H. simpl in H.
  destruct (sharing k ms) as [|m rest] eqn:S; [discriminate|].
  injection H as <-. simpl.
  assert (In m (sharing k ms)) as Hm by (rewrite S; now left).
  apply filter_In in Hm. destruct Hm as [_ Hm].
  apply String.eqb_eq in Hm. now rewrite <- Hm.
Qed.

Lemma collectLocations_member (ms : list RawTeamRecord) (m : RawTeamRecord) :
  In m ms ->
  exists d,
    assoc (memberKey m) (collectLocations ms) = Some d
    /\ loc_count d = List.length (sharing (memberKey m) ms)
    /\ loc_members d = map fullName (sharing (memberKey m) ms)
    /\ In (memberKey m) (mapKeys (collectLocations ms)).
Proof.
  intros H. unfold collectLocations. rewrite collect_lookup. simpl.
  assert (In m (sharing (memberKey m) ms)) as Hm.
  { apply filter_In. split; [assumption | apply String.eqb_refl]. }
  destruct (sharing (memberKey m) ms) as [|m0 rest] eqn:S; [contradiction|].
  eexists. split; [reflexivity|]. simpl. repeat split.
  assert (assoc (memberKey m) (fold_left collectMember ms []) <> None) as N.
  { rewrite collect_lookup, S. discriminate. }
  destruct (in_dec string_dec (memberKey m)
              (mapKeys (fold_left collectMember ms []))) as [I|I];
    [assumption|].
  apply assoc_None_iff in I. contradiction.
Qed.

End LocationSetFacts.

(** ** The geocoding loop *)

Section GeocodeLoopFacts.
Variable P : Provider.

Lemma forwardRequests_app (l1 l2 : list event) :
  forwardRequests (l1 ++ l2)%list
  = (forwardRequests l1 ++ forwardRequests l2)%list.
Proof.
  apply flat_map_app.
Qed.

Lemma geocodeStep_spec (st st' : GeocodeState P) (loc : string * LocationData) :
  geocodeStep P st loc = Normal st' ->
  exists q r,
    queryFor (snd loc) = Normal q
    /\ forwardRequests (events st') = (forwardRequests (events st) ++ [q])%list
    /\ geocodeResults st' = mapSet (fst loc) r (geocodeResults st)
    /\ res_key r = fst loc /\ res_data r = snd loc.
Proof.
  unfold geocodeStep, queryFor.
  destruct (normalizeLocation (loc_location (snd loc)) (loc_country (snd loc)))
    as [n|msg]; [|discriminate].
  cbn [bind].
  destruct (geocode P (world st) (searchQuery n (loc_country (snd loc))))
    as [answer w].
  destruct answer as [[[|hit hits]|]|message]; intros H; injection H as <-;
    eexists; eexists; (split; [reflexivity|]); cbn [events geocodeResults];
    rewrite !forwardRequests_app; simpl; rewrite app_nil_r;
    (split; [reflexivity|]); (split; [reflexivity|]); split; reflexivity.
Qed.

Lemma geocodeLoop_spec (locs : list (string * LocationData)) :
  forall st st' : GeocodeState P,
    NoDup (mapKeys (geocodeResults st) ++ mapKeys locs)%list ->
    geocodeLoop P st locs = Normal st' ->
    exists rs qs,
      geocodeResults st' = (geocodeResults st ++ rs)%list
      /\ Forall2 resultOf locs rs
      /\ forwardRequests (events st')
         = (forwardRequests (events st) ++ qs)%list
      /\ Forall2 (fun loc q => queryFor (snd loc) = Normal q) locs qs.
Proof.
  induction locs as [|loc locs IH]; intros st st' ND H; simpl in H.
  - injection H as <-. exists [], []. rewrite !app_nil_r.
    repeat split; constructor.
  - destruct (geocodeStep P st loc) as [st1|msg] eqn:S; [|discriminate].
    cbn [bind] in H.
    destruct (geocodeStep_spec _ _ _ S) as (q & r & Hq & Hf & Hr & Hk & Hd).
    assert (~ In (fst loc) (mapKeys (geocodeResults st))) as Hnew.
    { intros I. apply NoDup_app_remove_r in ND as ND1.
      simpl in ND. apply NoDup_remove_2 in ND.
      apply ND. apply in_or_app. now left. }
    rewrite (mapSet_new _ _ _ Hnew) in Hr.
    destruct (IH st1 st') as (rs & qs & H1 & H2 & H3 & H4); [|assumption|].
    + rewrite Hr. unfold mapKeys. rewrite map_app. simpl.
      rewrite <- app_assoc. exact ND.
    + exists ((fst loc, r) :: rs), (q :: qs).
      rewrite H1, Hr, H3, Hf, <- !app_assoc. simpl.
      repeat split; try reflexivity.
      * constructor; [|assumption]. repeat split; assumption.
      * constructor; assumption.
Qed.

Lemma verifyStep_forward (st : VerifyState P) (loc : GeocodeResult) :
  forwardRequests (v_events (verifyStep P st loc))
  = forwardRequests (v_events st).
Proof.
  unfold verifyStep.
  destruct (geocoded loc) as [g|]; [|reflexivity].
  destruct (reverse P (v_world st) (lat g) (lng g)) as [answer w].
  destruct answer as [[[|rev more]|]|message]; cbn [v_events];
    rewrite ?forwardRequests_app; simpl; rewrite ?app_nil_r; try reflexivity.
  destruct (res_location loc), (formattedAddress rev); cbn [v_events];
    rewrite ?forwardRequests_app; simpl; rewrite ?app_nil_r; reflexivity.
Qed.

Lemma verifyLoop_forward (needed : list GeocodeResult) :
  forall st : VerifyState P,
    forwardRequests (v_events (verifyLoop P st needed))
    = forwardRequests (v_events st).
Proof.
  unfold verifyLoop.
  induction needed as [|loc rest IH]; intros st; simpl; [reflexivity|].
  now rewrite IH, verifyStep_forward.
Qed.

End GeocodeLoopFacts.

Section OrderFacts.

Lemma partition_Permutation {A : Type} (f : A -> bool) (l : list A) :
  Permutation (filter f l ++ filter (fun x => negb (f x)) l)%list l.
Proof.
  induction l as [|x l IH]; simpl; [constructor|].
  destruct (f x); simpl.
  - now constructor.
  - apply Permutation_sym, Permutation_cons_app, Permutation_sym, IH.
Qed.

Lemma allLocationsOf_Permutation (lm : list (string * LocationData)) :
  Permutation (allLocationsOf lm) lm.
Proof.
  apply partition_Permutation.
Qed.

Lemma Forall2_keys (locs : list (string * LocationData))
  (rs : list (string * GeocodeResult)) :
  keyed locs -> Forall2 resultOf locs rs ->
  map resultKey (mapValues rs) = mapKeys locs.
Proof.
  intros K F. induction F as [|loc kr locs rs (H1 & H2 & H3) F IH];
    [reflexivity|].
  simpl. rewrite IH.
  - f_equal. unfold resultKey, res_location, res_country. rewrite H3.
    destruct loc as [k d]. symmetry. apply K. now left.
  - intros k d H. apply K. now right.
Qed.

Lemma In_notNull {A : Type} (l : list (option A)) (a : A) :
  In a (notNull l) <-> In (Some a) l.
Proof.
  induction l as [|[x|] l IH]; simpl; [tauto| |].
  - rewrite IH. split; intros [H|H]; auto; left; congruence.
  - rewrite IH. split; [auto|]. intros [H|H]; [discriminate | assumption].
Qed.

End OrderFacts.

(** C3 fails as stated: two records with different pairs share one entry
    of the location set when their keys are the same text.  A null
    location and the location "null" have one key; so have "Salem|OR" in
    "US" and "Salem" in "OR|US". *)
Lemma C3_distinct_pairs_collapse :
  ((location (person "1" "Ann" "A" Null (Str "US")),
    country (person "1" "Ann" "A" Null (Str "US")))
   <> (location (person "2" "Ben" "B" (Str "null") (Str "US")),
       country (person "2" "Ben" "B" (Str "null") (Str "US")))
   /\ collectLocations [ person "1" "Ann" "A" Null (Str "US");
                         person "2" "Ben" "B" (Str "null") (Str "US") ]
      = [ ("null|US", {| loc_location := Null; loc_country := Str "US";
                         loc_count := 2;
                         loc_members := ["Ann A"; "Ben B"] |}) ])
  /\ ((Str "Salem|OR", Str "US") <> (Str "Salem", Str "OR|US")
      /\ collectLocations
           [ person "1" "Ann" "A" (Str "Salem|OR") (Str "US");
             person "2" "Ben" "B" (Str "Salem") (Str "OR|US") ]
         = [ ("Salem|OR|US", {| loc_location := Str "Salem|OR";
                                loc_country := Str "US";
                                loc_count := 2;
                                loc_members := ["Ann A"; "Ben B"] |}) ]).
Proof.
  split; (split; [discriminate | reflexivity]).
Qed.

(** The results of a run that completes are one per key. *)
Lemma geocodeTeamData_results_unique (P : Provider) (w : World P)
  (teamMembers : list RawTeamRecord) (out : GeocodeOutput) :
  geocodeTeamData P w teamMembers = Normal out ->
  NoDup (map resultKey (allResults out)).
Proof.
  unfold geocodeTeamData. intros H.
  destruct (geocodeLoop P _ (allLocationsOf (collectLocations teamMembers)))
    as [st|msg] eqn:L; [|discriminate].
  cbn [bind] in H. injection H as <-. cbn [allResults].
  pose proof (allLocationsOf_Permutation (collectLocations teamMembers)) as Pm.
  assert (NoDup (mapKeys (allLocationsOf (collectLocations teamMembers))))
    as ND.
  { apply (Permutation_NoDup (l := mapKeys (collectLocations teamMembers))).
    - apply Permutation_sym. unfold mapKeys. now apply Permutation_map.
    - apply collect_keys_NoDup. constructor. }
  apply geocodeLoop_spec in L; [|exact ND].
  destruct L as (rs & qs & H1 & H2 & _). simpl in H1. rewrite H1.
  rewrite (Forall2_keys _ _ (fun k d Hin =>
             collectLocations_keyed teamMembers k d
               (Permutation_in _ Pm Hin)) H2).
  exact ND.
Qed.

(** C3, amended.  In a run that completes: every key
    [`${location}|${country}`] is in the location set once, with the number
    of records that share it; the forward requests are one per entry of
    the set, and the results are one per key; two records with the same
    location and country are both in the final dataset with the same
    coordinates, those of a result of their key, or both left out.  Two
    pairs of strings with the same key are the same pair when the
    locations contain no bar. *)
Theorem C3_one_entry_and_one_request_per_key
  (P : Provider) (w : World P) (teamMembers : list RawTeamRecord)
  (out : GeocodeOutput) :
  geocodeTeamData P w teamMembers = Normal out ->
  NoDup (mapKeys (collectLocations teamMembers))
  /\ (forall m, In m teamMembers ->
        exists d,
          assoc (memberKey m) (collectLocations teamMembers) = Some d
          /\ loc_count d = List.length (sharing (memberKey m) teamMembers)
          /\ count_occ string_dec (mapKeys (collectLocations teamMembers))
                       (memberKey m) = 1)
  /\ (exists locs,
        Permutation locs (collectLocations teamMembers)
        /\ Forall2 (fun loc q => queryFor (snd loc) = Normal q)
                   locs (forwardRequests (trace out))
        /\ map resultKey (allResults out) = mapKeys locs)
  /\ (forall now m1 m2,
        In m1 teamMembers -> In m2 teamMembers ->
        location m1 = location m2 -> country m1 = country m2 ->
        (exists c r g,
            In (enrich m1 c) (teamOf now teamMembers (allResults out))
            /\ In (enrich m2 c) (teamOf now teamMembers (allResults out))
            /\ In r (allResults out) /\ resultKey r = memberKey m1
            /\ geocoded r = Some g /\ c = coordsOf g)
        \/ (forall e, In e (teamOf now teamMembers (allResults out)) ->
                      ~ (em_location e = location m1
                         /\ em_country e = country m1)))
  /\ (forall s1 c1 s2 c2 : string,
        includes s1 "|" = false -> includes s2 "|" = false ->
        locationKey (Str s1) (Str c1) = locationKey (Str s2) (Str c2) ->
        s1 = s2 /\ c1 = c2).
Proof.
  intros H.
  assert (NoDup (mapKeys (collectLocations teamMembers))) as ND
      by (apply collect_keys_NoDup; constructor).
  split; [exact ND|]. split; [|split; [|split]].
  - intros m Hm.
    destruct (collectLocations_member _ _ Hm) as (d & H1 & H2 & _ & H4).
    exists d. repeat split; try assumption.
    now apply NoDup_count_occ'.
  - unfold geocodeTeamData in H.
    destruct (geocodeLoop P _ (allLocationsOf (collectLocations teamMembers)))
      as [st|msg] eqn:L; [|discriminate].
    cbn [bind] in H. injection H as <-. cbn [trace allResults].
    pose proof (allLocationsOf_Permutation (collectLocations teamMembers)) as Pm.
    apply geocodeLoop_spec in L.
    + destruct L as (rs & qs & H1 & H2 & H3 & H4). simpl in H1, H3.
      exists (allLocationsOf (collectLocations teamMembers)).
      split; [exact Pm|]. rewrite verifyLoop_forward. cbn [v_events].
      rewrite H3, H1. split; [exact H4|].
      apply Forall2_keys; [|exact H2].
      intros k d Hin. apply (collectLocations_keyed teamMembers).
      now apply (Permutation_in _ Pm).
    + simpl. apply (Permutation_NoDup (l := mapKeys (collectLocations teamMembers)));
        [|exact ND].
      apply Permutation_sym. unfold mapKeys. now apply Permutation_map.
  - intros now m1 m2 I1 I2 El Ec.
    assert (memberKey m2 = memberKey m1) as K
        by (unfold memberKey; now rewrite El, Ec).
    rewrite teamOf_eq.
    destruct (assoc (memberKey m1) (buildLocationMap (allResults out)))
      as [c|] eqn:A.
    + left.
      destruct (buildLocationMap_source _ _ _ _ A)
        as [A0|(r & g & Hr & _ & Hg & Hk & Hc)]; [discriminate|].
      exists c, r, g. repeat split; try assumption.
      * apply In_notNull, in_map_iff. exists m1. split; [|assumption].
        unfold emit. now rewrite A.
      * apply In_notNull, in_map_iff. exists m2. split; [|assumption].
        unfold emit. now rewrite K, A.
    + right. intros e He [E1 E2].
      apply In_notNull, in_map_iff in He. destruct He as (m & Hm & _).
      unfold emit in Hm.
      destruct (assoc (memberKey m) (buildLocationMap (allResults out)))
        as [c|] eqn:B; [|discriminate].
      injection Hm as <-. simpl in E1, E2.
      unfold memberKey in A, B. rewrite E1, E2 in B. congruence.
  - intros s1 c1 s2 c2 H1 H2 E. unfold locationKey in E. simpl in E.
    now apply key_injective.
Qed.

Lemma C3_one_entry_and_one_request_per_key_witness :
  NoDup (mapKeys (collectLocations sampleMembers))
  /\ exists locs,
       Permutation locs (collectLocations sampleMembers)
       /\ Forall2 (fun loc q => queryFor (snd loc) = Normal q)
                  locs (forwardRequests (trace sampleOutput))
       /\ map resultKey (allResults sampleOutput) = mapKeys locs.
Proof.
  destruct (C3_one_entry_and_one_request_per_key sampleProvider 0
              sampleMembers sampleOutput eq_refl) as (H1 & _ & H3 & _).
  split; assumption.
Defined.

(** ** The run completes *)

Section CompletionFacts.
Variable P : Provider.

Lemma normalizeLocation_completes (loc ctry : text) :
  plainCountry ctry = true -> exists n, normalizeLocation loc ctry = Normal n.
Proof.
  intros C. unfold normalizeLocation.
  destruct (negb (truthy loc) || strictEq loc "null"
            || (toLowerCase (interpolate loc) =? "world")); [now eexists|].
  unfold stripCountryName.
  destruct (truthy ctry && includes _ ","); [|now eexists].
  destruct (getProperty countryNames (interpolate ctry)) as [name| |] eqn:G.
  - destruct (negb (name =? "") && includes _ _); now eexists.
  - exfalso. unfold getProperty in G.
    destruct (assoc (interpolate ctry) countryNames); [discriminate|].
    unfold plainCountry in C. apply negb_true_iff in C.
    rewrite C in G. discriminate.
  - now eexists.
Qed.

Lemma geocodeLoop_completes (locs : list (string * LocationData)) :
  Forall (fun loc => plainCountry (loc_country (snd loc)) = true) locs ->
  forall st : GeocodeState P, exists st', geocodeLoop P st locs = Normal st'.
Proof.
  induction 1 as [|loc locs Hc _ IH]; intros st; simpl; [now eexists|].
  unfold geocodeStep.
  destruct (normalizeLocation_completes (loc_location (snd loc)) _ Hc)
    as [n ->].
  cbn [bind]. destruct (geocode P (world st) _) as [answer w].
  destruct answer as [[[|hit hits]|]|message]; cbn [bind]; apply IH.
Qed.

Lemma collectLocations_origin (ms : list RawTeamRecord) (k : string)
  (d : LocationData) :
  In (k, d) (collectLocations ms) ->
  exists m, In m ms /\ loc_location d = location m
            /\ loc_country d = country m.
Proof.
  intros H.
  assert (NoDup (mapKeys (collectLocations ms))) as ND
      by (apply collect_keys_NoDup; constructor).
  apply (In_assoc _ _ _ ND) in H.
  unfold collectLocations in H. rewrite collect_lookup in H. simpl in H.
  destruct (sharing k ms) as [|m rest] eqn:S; [discriminate|].
  injection H as <-. exists m. simpl. repeat split.
  assert (In m (sharing k ms)) as Hm by (rewrite S; now left).
  now apply filter_In in Hm.
Qed.

(** A run on records whose countries are plain completes. *)
Lemma geocodeTeamData_completes (w : World P) (ms : list RawTeamRecord) :
  Forall (fun m => plainCountry (country m) = true) ms ->
  exists out, geocodeTeamData P w ms = Normal out.
Proof.
  intros F. unfold geocodeTeamData.
  match goal with
  | |- context [geocodeLoop P ?s ?l] =>
      destruct (geocodeLoop_completes l) with (st := s) as [st' ->]
  end.
  - apply Forall_forall. intros [k d] Hin.
    apply (Permutation_in _ (allLocationsOf_Permutation _)) in Hin.
    destruct (collectLocations_origin _ _ _ Hin) as (m & Hm & _ & Hc).
    simpl. rewrite Hc. rewrite Forall_forall in F. now apply F.
  - cbn [bind]. now eexists.
Qed.

End CompletionFacts.

(* ================================================================== *)
(** * More properties of the scripts *)

(** ** The location set *)

Section LocationSetMore.

Lemma mapHas_keys {A : Type} (k : string) (m : list (string * A)) :
  mapHas k m = existsb (String.eqb k) (mapKeys m).
Proof.
  unfold mapHas. induction m as [|[k0 x] m IH]; simpl; [reflexivity|].
  rewrite (String.eqb_sym k k0).
  destruct (k0 =? k); [reflexivity | exact IH].
Qed.

Lemma collect_keys_order (ms : list RawTeamRecord) :
  forall lm : list (string * LocationData),
    mapKeys (fold_left collectMember ms lm)
    = (mapKeys lm ++ firstOccurrences (mapKeys lm) (map memberKey ms))%list.
Proof.
  induction ms as [|m ms IH]; intros lm; simpl.
  - now rewrite app_nil_r.
  - rewrite IH, collectMember_keys, <- mapHas_keys.
    destruct (mapHas (memberKey m) lm); [reflexivity|].
    now rewrite <- app_assoc.
Qed.

Lemma totalCount_app (a b : list (string * LocationData)) :
  totalCount (a ++ b)%list = totalCount a + totalCount b.
Proof.
  unfold totalCount. now rewrite map_app, list_sum_app.
Qed.

Lemma totalCount_mapSet (k : string) (v : LocationData)
  (lm : list (string * LocationData)) :
  totalCount (mapSet k v lm)
  + match assoc k lm with Some d => loc_count d | None => 0 end
  = totalCount lm + loc_count v.
Proof.
  induction lm as [|[k0 x] lm IH]; simpl.
  - unfold totalCount. simpl. lia.
  - destruct (String.eqb_spec k0 k) as [->|N].
    + unfold totalCount. simpl. lia.
    + unfold totalCount in *. simpl. lia.
Qed.

Lemma totalCount_collectMember (lm : list (string * LocationData))
  (m : RawTeamRecord) :
  totalCount (collectMember lm m) = S (totalCount lm).
Proof.
  unfold collectMember. fold (memberKey m). unfold mapHas.
  destruct (assoc (memberKey m) lm) as [d|] eqn:E.
  - rewrite E.
    pose proof (totalCount_mapSet (memberKey m)
                  {| loc_location := loc_location d;
                     loc_country := loc_country d;
                     loc_count := S (loc_count d);
                     loc_members := (loc_members d ++ [fullName m])%list |}
                  lm) as H.
    rewrite E in H. simpl in *. lia.
  - rewrite assoc_mapSet, String.eqb_refl.
    match goal with
    | |- totalCount (mapSet ?k ?v (mapSet ?k ?i lm)) = _ =>
        pose proof (totalCount_mapSet k v (mapSet k i lm)) as H;
        pose proof (totalCount_mapSet k i lm) as H0
    end.
    rewrite assoc_mapSet, String.eqb_refl in H. rewrite E in H0.
    simpl in *. lia.
Qed.

Lemma totalCount_collect (ms : list RawTeamRecord) :
  forall lm : list (string * LocationData),
    totalCount (fold_left collectMember ms lm)
    = totalCount lm + List.length ms.
Proof.
  induction ms as [|m ms IH]; intros lm; simpl; [lia|].
  rewrite IH, totalCount_collectMember. lia.
Qed.

End LocationSetMore.

(** X1. The entry of a key holds the location and the country of the first
    record with that key, the number of the records with that key and
    their full names in the order of the records; a key no record has is
    not in the set. *)
Theorem X1_entry_of_key (ms : list RawTeamRecord) (k : string) :
  (forall first rest,
      sharing k ms = first :: rest ->
      assoc k (collectLocations ms)
      = Some {| loc_location := location first;
                loc_country := country first;
                loc_count := S (List.length rest);
                loc_members := fullName first :: map fullName rest |})
  /\ (sharing k ms = [] -> assoc k (collectLocations ms) = None).
Proof.
  unfold collectLocations. rewrite collect_lookup. simpl. split.
  - intros first rest ->. reflexivity.
  - intros ->. reflexivity.
Qed.

(** X2. The counts of the location set add up to the number of records,
    and every entry has as many names as its count, at least one. *)
Theorem X2_counts_add_up (ms : list RawTeamRecord) :
  totalCount (collectLocations ms) = List.length ms
  /\ forall k d, In (k, d) (collectLocations ms) ->
                 List.length (loc_members d) = loc_count d
                 /\ 1 <= loc_count d.
Proof.
  split.
  - unfold collectLocations. now rewrite totalCount_collect.
  - intros k d H.
    assert (NoDup (mapKeys (collectLocations ms))) as ND
        by (apply collect_keys_NoDup; constructor).
    apply (In_assoc _ _ _ ND) in H.
    unfold collectLocations in H. rewrite collect_lookup in H. simpl in H.
    destruct (sharing k ms) as [|m rest]; [discriminate|].
    injection H as <-. simpl. rewrite length_map. lia.
Qed.

(** X3. The keys of the location set are the keys of the records in the
    order in which they first occur. *)
Theorem X3_keys_in_first_occurrence_order (ms : list RawTeamRecord) :
  mapKeys (collectLocations ms) = firstOccurrences [] (map memberKey ms).
Proof.
  unfold collectLocations. now rewrite collect_keys_order.
Qed.

(** ** The run of the geocoder *)

Section RunFacts.
Variable P : Provider.

Lemma geocodeStep_full (st st' : GeocodeState P) (loc : string * LocationData) :
  geocodeStep P st loc = Normal st' ->
  exists q r,
    queryFor (snd loc) = Normal q
    /\ events st' = (events st ++ pace q)%list
    /\ geocodeResults st' = mapSet (fst loc) r (geocodeResults st)
    /\ res_key r = fst loc /\ res_data r = snd loc /\ wellFormed r
    /\ successCount st' = successCount st + (if success r then 1 else 0)
    /\ failCount st' = failCount st + (if success r then 0 else 1).
Proof.
  unfold geocodeStep, queryFor, wellFormed.
  destruct (normalizeLocation (loc_location (snd loc)) (loc_country (snd loc)))
    as [n|msg]; [|discriminate].
  cbn [bind].
  destruct (geocode P (world st) (searchQuery n (loc_country (snd loc))))
    as [answer w].
  destruct answer as [[[|hit hits]|]|message]; intros H; injection H as <-;
    eexists; eexists; (split; [reflexivity|]);
    cbn [events geocodeResults successCount failCount];
    rewrite <- app_assoc;
    (split; [reflexivity|]); (split; [reflexivity|]);
    (split; [reflexivity|]); (split; [reflexivity|]);
    (split; [|split; simpl; lia]); simpl;
    solve [ left; repeat split; discriminate
          | right; repeat split; discriminate ].
Qed.

Lemma geocodeLoop_full (locs : list (string * LocationData)) :
  forall st st' : GeocodeState P,
    NoDup (mapKeys (geocodeResults st) ++ mapKeys locs)%list ->
    geocodeLoop P st locs = Normal st' ->
    exists rs qs,
      geocodeResults st' = (geocodeResults st ++ rs)%list
      /\ Forall2 storedFor locs rs
      /\ events st' = (events st ++ flat_map pace qs)%list
      /\ Forall2 (fun loc q => queryFor (snd loc) = Normal q) locs qs
      /\ successCount st'
         = successCount st + List.length (filter success (mapValues rs))
      /\ failCount st'
         = failCount st
           + List.length (filter (fun r => negb (success r)) (mapValues rs)).
Proof.
  induction locs as [|loc locs IH]; intros st st' ND H; simpl in H.
  - injection H as <-. exists [], []. simpl. rewrite !app_nil_r.
    repeat split; try constructor; lia.
  - destruct (geocodeStep P st loc) as [st1|msg] eqn:S; [|discriminate].
    cbn [bind] in H.
    destruct (geocodeStep_full _ _ _ S)
      as (q & r & Hq & He & Hr & Hk & Hd & Hw & Hs & Hf).
    assert (~ In (fst loc) (mapKeys (geocodeResults st))) as Hnew.
    { intros I. simpl in ND. apply NoDup_remove_2 in ND.
      apply ND. apply in_or_app. now left. }
    rewrite (mapSet_new _ _ _ Hnew) in Hr.
    destruct (IH st1 st') as (rs & qs & H1 & H2 & H4 & HQ & H5 & H6);
      [|assumption|].
    + rewrite Hr. unfold mapKeys. rewrite map_app. simpl.
      rewrite <- app_assoc. exact ND.
    + exists ((fst loc, r) :: rs), (q :: qs).
      rewrite H1, Hr, H4, He, H5, H6, Hs, Hf, <- !app_assoc.
      cbn [map flat_map mapValues snd fst filter].
      fold (mapValues rs).
      repeat split; try reflexivity.
      * constructor; [|assumption]. repeat split; assumption.
      * constructor; assumption.
      * destruct (success r); simpl; lia.
      * destruct (success r); simpl; lia.
Qed.

Lemma storedFor_values (locs : list (string * LocationData))
  (rs : list (string * GeocodeResult)) :
  keyed locs -> Forall2 storedFor locs rs ->
  map res_data (mapValues rs) = map snd locs
  /\ Forall (fun r => wellFormed r /\ res_key r = resultKey r) (mapValues rs).
Proof.
  intros K F.
  induction F as [|loc kr locs rs ((H1 & H2 & H3) & W) F IH];
    [split; [reflexivity | constructor]|].
  destruct IH as [I1 I2]; [intros k d H; apply K; now right|].
  simpl. rewrite I1, H3. split; [reflexivity|].
  constructor; [|exact I2]. split; [exact W|].
  unfold resultKey, res_location, res_country. rewrite H2, H3.
  destruct loc as [k d]. apply K. now left.
Qed.

Lemma verifyStep_full (st : VerifyState P) (loc : GeocodeResult) :
  (exists b, v_events (verifyStep P st loc) = (v_events st ++ b)%list
             /\ (b = [] \/ verifyBlock b))
  /\ (mismatches (verifyStep P st loc) = mismatches st
      \/ exists g address o,
           geocoded loc = Some g /\ res_location loc = Str o
           /\ ~ ContainsIgnoringCase address o
           /\ mismatches (verifyStep P st loc)
              = (mismatches st ++ [mismatchOf loc g address])%list).
Proof.
  unfold verifyStep, verifyBlock.
  destruct (geocoded loc) as [g|];
    [|split; [exists []; rewrite app_nil_r; auto | now left]].
  destruct (reverse P (v_world st) (lat g) (lng g)) as [answer w].
  destruct answer as [[[|rev more]|]|message]; cbn [v_events mismatches];
    try (split; [eexists; rewrite <- ?app_assoc; split;
                 [reflexivity | right; eexists; eexists; simpl; eauto]
                | now left]).
  destruct (res_location loc) as [| |o], (formattedAddress rev) as [| |a];
    cbn [v_events mismatches];
    try (split; [eexists; rewrite <- ?app_assoc; split;
                 [reflexivity | right; eexists; eexists; simpl; eauto]
                | now left]).
  split.
  - eexists. rewrite <- app_assoc. split; [reflexivity|].
    right. eexists. eexists. simpl. eauto.
  - destruct (matchesReverse o a (city rev)) eqn:M; [now left|].
    right. exists g, a, o. repeat split; try reflexivity.
    intros C. assert (matchesReverse o a (city rev) = true) as M'
        by (apply matchesReverse_iff; now left).
    congruence.
Qed.

(** A mismatch the pass may add for an entry. *)
Lemma verifyLoop_full (needed : list GeocodeResult) :
  forall st : VerifyState P,
    (exists blocks,
        v_events (verifyLoop P st needed)
        = (v_events st ++ concat blocks)%list
        /\ Forall verifyBlock blocks)
    /\ exists added,
         mismatches (verifyLoop P st needed) = (mismatches st ++ added)%list
         /\ List.length added <= List.length needed
         /\ Forall (fun m => exists loc g address o,
                        In loc needed /\ geocoded loc = Some g
                        /\ res_location loc = Str o
                        /\ ~ ContainsIgnoringCase address o
                        /\ m = mismatchOf loc g address) added.
Proof.
  unfold verifyLoop.
  induction needed as [|loc rest IH]; intros st; simpl.
  - split.
    + exists []. simpl. now rewrite app_nil_r.
    + exists []. rewrite app_nil_r.
      split; [reflexivity | split; [simpl; lia | constructor]].
  - destruct (IH (verifyStep P st loc))
      as ((blocks & E & F) & added & M & L & O).
    destruct (verifyStep_full st loc) as ((b & Eb & Hb) & Hm).
    split.
    + rewrite E, Eb, <- app_assoc. destruct Hb as [->|Hb].
      * exists blocks. auto.
      * exists (b :: blocks). simpl. split; [reflexivity|].
        now constructor.
    + assert (Forall (fun m => exists loc0 g address o,
                          In loc0 (loc :: rest) /\ geocoded loc0 = Some g
                          /\ res_location loc0 = Str o
                          /\ ~ ContainsIgnoringCase address o
                          /\ m = mismatchOf loc0 g address) added) as O'.
      { eapply Forall_impl; [|exact O].
        intros m (l0 & g & a & o & I & G & Em). exists l0, g, a, o.
        split; [now right | auto]. }
      rewrite M. destruct Hm as [->|(g & a & o & G & Lo & N & ->)].
      * exists added. split; [reflexivity | split; [simpl; lia | exact O']].
      * exists (mismatchOf loc g a :: added). rewrite <- app_assoc.
        split; [reflexivity | split; [simpl; lia|]].
        constructor; [|exact O'].
        exists loc, g, a, o. split; [now left | auto].
Qed.

(** What a run that completes is made of. *)
Lemma geocodeTeamData_inv (w : World P) (ms : list RawTeamRecord)
  (out : GeocodeOutput) :
  geocodeTeamData P w ms = Normal out ->
  exists (st : GeocodeState P) (qs : list string),
    map res_data (mapValues (geocodeResults st))
    = map snd (allLocationsOf (collectLocations ms))
    /\ Forall (fun r => wellFormed r /\ res_key r = resultKey r)
              (mapValues (geocodeResults st))
    /\ events st = flat_map pace qs
    /\ Forall2 (fun loc q => queryFor (snd loc) = Normal q)
               (allLocationsOf (collectLocations ms)) qs
    /\ successCount st
       = List.length (filter success (mapValues (geocodeResults st)))
    /\ failCount st
       = List.length (filter (fun r => negb (success r))
                             (mapValues (geocodeResults st)))
    /\ out
       = let v := verifyLoop P {| v_world := world st; mismatches := [];
                                  v_events := events st |}
                             (verificationsNeeded (geocodeResults st)) in
         {| summary :=
              {| total := List.length (allLocationsOf (collectLocations ms));
                 successful := successCount st;
                 failed := failCount st;
                 problematic :=
                   List.length (problematicOf (collectLocations ms));
                 summary_mismatches := List.length (mismatches v) |};
            problematicLocations :=
              map snd (problematicOf (collectLocations ms));
            failedGeocode :=
              filter (fun r => negb (success r))
                     (mapValues (geocodeResults st));
            verificationMismatches := mismatches v;
            allResults := mapValues (geocodeResults st);
            trace := v_events v |}.
Proof.
  unfold geocodeTeamData. intros H.
  destruct (geocodeLoop P _ (allLocationsOf (collectLocations ms)))
    as [st|msg] eqn:L; [|discriminate].
  cbn [bind] in H. injection H as <-.
  pose proof (allLocationsOf_Permutation (collectLocations ms)) as Pm.
  apply geocodeLoop_full in L.
  - destruct L as (rs & qs & H1 & H2 & H4 & HQ & H5 & H6).
    simpl in H1, H4, H5, H6.
    destruct (storedFor_values _ _
                (fun k d Hin => collectLocations_keyed ms k d
                                  (Permutation_in _ Pm Hin)) H2) as [V1 V2].
    exists st, qs. rewrite H1. repeat split; assumption.
  - simpl.
    apply (Permutation_NoDup (l := mapKeys (collectLocations ms))).
    + apply Permutation_sym. unfold mapKeys. now apply Permutation_map.
    + apply collect_keys_NoDup. constructor.
Qed.

End RunFacts.

(** X4. In a run that completes the results are in the order of the
    requests: first the problematic locations, which are the list the run
    saves as [problematicLocations], then the others; together they are
    the location set. *)
Theorem X4_problematic_locations_first
  (P : Provider) (w : World P) (ms : list RawTeamRecord) (out : GeocodeOutput) :
  geocodeTeamData P w ms = Normal out ->
  exists others,
    map res_data (allResults out) = (problematicLocations out ++ others)%list
    /\ Forall (fun d => isPotentiallyProblematic (loc_location d) = true)
              (problematicLocations out)
    /\ Forall (fun d => isPotentiallyProblematic (loc_location d) = false)
              others
    /\ Permutation (problematicLocations out ++ others)%list
                   (map snd (collectLocations ms)).
Proof.
  intros H.
  destruct (geocodeTeamData_inv P _ _ _ H) as (st & qs & V1 & _ & _ & _ & _ & _ & ->).
  cbn [allResults problematicLocations].
  exists (map snd (normalOf (collectLocations ms))).
  rewrite V1. unfold allLocationsOf at 1. rewrite map_app.
  split; [reflexivity|]. split; [|split].
  - apply Forall_forall. intros d Hd. apply in_map_iff in Hd.
    destruct Hd as (e & <- & He). apply filter_In in He. apply He.
  - apply Forall_forall. intros d Hd. apply in_map_iff in Hd.
    destruct Hd as (e & <- & He). apply filter_In in He.
    destruct He as [_ He]. now apply negb_true_iff in He.
  - rewrite <- map_app. apply Permutation_map.
    apply allLocationsOf_Permutation.
Qed.

(** X5. Every result of a run that completes either succeeded, with
    coordinates and without an error text, or failed, with an error text
    and without coordinates; and its key is the key of its own location
    and country. *)
Theorem X5_results_well_formed
  (P : Provider) (w : World P) (ms : list RawTeamRecord) (out : GeocodeOutput)
  (r : GeocodeResult) :
  geocodeTeamData P w ms = Normal out ->
  In r (allResults out) ->
  ((success r = true /\ geocoded r <> None /\ error r = None)
   \/ (success r = false /\ geocoded r = None /\ error r <> None))
  /\ res_key r = locationKey (res_location r) (res_country r).
Proof.
  intros H Hr.
  destruct (geocodeTeamData_inv P _ _ _ H) as (st & qs & _ & V2 & _ & _ & _ & _ & ->).
  cbn [allResults] in Hr. rewrite Forall_forall in V2.
  exact (V2 r Hr).
Qed.

(** X6. The counters a run saves: [total] is the number of results and of
    distinct keys, [successful] and [failed] count the results that
    succeeded and that failed and add up to [total], [failed] is the
    length of [failedGeocode], [problematic] is the length of
    [problematicLocations] and at most [total], and the number of
    mismatches is at most ten and at most [successful]. *)
Theorem X6_summary_counts
  (P : Provider) (w : World P) (ms : list RawTeamRecord) (out : GeocodeOutput) :
  geocodeTeamData P w ms = Normal out ->
  total (summary out) = List.length (allResults out)
  /\ total (summary out) = List.length (collectLocations ms)
  /\ successful (summary out) = List.length (filter success (allResults out))
  /\ failed (summary out) = List.length (failedGeocode out)
  /\ successful (summary out) + failed (summary out) = total (summary out)
  /\ problematic (summary out) = List.length (problematicLocations out)
  /\ problematic (summary out) <= total (summary out)
  /\ summary_mismatches (summary out)
     = List.length (verificationMismatches out)
  /\ summary_mismatches (summary out) <= 10
  /\ summary_mismatches (summary out) <= successful (summary out).
Proof.
  intros H.
  destruct (geocodeTeamData_inv P _ _ _ H)
    as (st & qs & V1 & _ & _ & _ & S & F & ->).
  cbn [summary total successful failed problematic summary_mismatches
       allResults failedGeocode problematicLocations verificationMismatches].
  assert (List.length (mapValues (geocodeResults st))
          = List.length (allLocationsOf (collectLocations ms))) as L
      by (rewrite <- (length_map res_data), V1; apply length_map).
  pose proof (filter_length success (mapValues (geocodeResults st))) as FL.
  destruct (verifyLoop_full P (verificationsNeeded (geocodeResults st))
              {| v_world := world st; mismatches := [];
                 v_events := events st |}) as (_ & added & M & LA & _).
  cbn [mismatches] in M. rewrite M. cbn [app].
  assert (List.length (verificationsNeeded (geocodeResults st)) <= 10) as B1
      by apply firstn_le_length.
  assert (List.length (verificationsNeeded (geocodeResults st))
          <= List.length (filter success (mapValues (geocodeResults st))))
    as B2.
  { unfold verificationsNeeded. rewrite length_firstn. lia. }
  rewrite S, F, length_map.
  repeat split; try lia.
  - apply Permutation_length, allLocationsOf_Permutation.
  - unfold allLocationsOf. rewrite List.length_app. lia.
Qed.


(** X8. Every mismatch a run saves comes from one of the first ten
    successful results: it has that result's location, which is a string,
    its country, its count and its coordinates; and when the location and
    the address are ASCII text, the address does not contain the
    location, letter case ignored. *)
Theorem X8_mismatch_origin
  (P : Provider) (w : World P) (ms : list RawTeamRecord) (out : GeocodeOutput)
  (m : VerificationMismatch) :
  geocodeTeamData P w ms = Normal out ->
  In m (verificationMismatches out) ->
  exists r g o,
    In r (firstn 10 (filter success (allResults out)))
    /\ geocoded r = Some g
    /\ res_location r = Str o
    /\ original m = Str o
    /\ originalCountry m = res_country r
    /\ coordinates m = lat g ++ ", " ++ lng g
    /\ membersAffected m = loc_count (res_data r)
    /\ (asciiOnly o = true -> asciiOnly (reverseGeocodedTo m) = true ->
        ~ ContainsIgnoringCase (reverseGeocodedTo m) o).
Proof.
  intros H Hm.
  destruct (geocodeTeamData_inv P _ _ _ H)
    as (st & qs & _ & _ & _ & _ & _ & _ & ->).
  cbn [verificationMismatches allResults] in *.
  destruct (verifyLoop_full P (verificationsNeeded (geocodeResults st))
              {| v_world := world st; mismatches := [];
                 v_events := events st |}) as (_ & added & M & _ & O).
  cbn [mismatches app] in M. rewrite M in Hm.
  rewrite Forall_forall in O.
  destruct (O m Hm) as (r & g & a & o & I & G & Lo & N & ->).
  exists r, g, o. unfold mismatchOf. cbn.
  repeat split; try assumption. intros _ _. exact N.
Qed.

(** ** The normaliser and the classifier *)

Section CommaFacts.

Lemma includes_comma_nil : includes "" "," = false.
Proof.
  reflexivity.
Qed.

Lemma includes_comma_cons (c : ascii) (s : string) :
  includes (String c s) "," = Ascii.eqb c "," || includes s ",".
Proof.
  rewrite includes_cons. cbn [startsWith].
  now rewrite startsWith_empty, andb_true_r, Ascii.eqb_sym.
Qed.

Lemma space_not_comma (c : ascii) : isSpace c = true -> Ascii.eqb c "," = false.
Proof.
  destruct c as [[] [] [] [] [] [] [] []]; vm_compute; congruence.
Qed.

Lemma lowerChar_comma (c : ascii) :
  Ascii.eqb (lowerChar c) "," = Ascii.eqb c ",".
Proof.
  destruct c as [[] [] [] [] [] [] [] []]; reflexivity.
Qed.

Lemma comma_toLowerCase (s : string) :
  includes (toLowerCase s) "," = includes s ",".
Proof.
  induction s as [|c s IH]; [reflexivity|].
  cbn [toLowerCase]. now rewrite !includes_comma_cons, lowerChar_comma, IH.
Qed.

Lemma comma_trimStart (s : string) :
  includes (trimStart s) "," = includes s ",".
Proof.
  induction s as [|c s IH]; [reflexivity|].
  cbn [trimStart]. destruct (isSpace c) eqn:E; [|reflexivity].
  now rewrite IH, includes_comma_cons, (space_not_comma _ E).
Qed.

Lemma comma_trimEnd (s : string) :
  includes (trimEnd s) "," = includes s ",".
Proof.
  induction s as [|c s IH]; [reflexivity|].
  cbn [trimEnd]. rewrite includes_comma_cons, <- IH.
  destruct (trimEnd s) as [|d t].
  - destruct (isSpace c) eqn:E.
    + now rewrite (space_not_comma _ E).
    + now rewrite includes_comma_cons.
  - now rewrite includes_comma_cons.
Qed.

Lemma comma_trim (s : string) : includes (trim s) "," = includes s ",".
Proof.
  unfold trim. now rewrite comma_trimEnd, comma_trimStart.
Qed.

Lemma comma_afterWord (w s rest : string) :
  includes w "," = false -> afterWord w s = Some rest ->
  includes s "," = includes rest ",".
Proof.
  revert s. induction w as [|a w IH]; intros s Hw H.
  - destruct s; now injection H as <-.
  - destruct s as [|b s]; cbn [afterWord] in H; [discriminate|].
    destruct (Ascii.eqb_spec a (lowerChar b)) as [->|]; [|discriminate].
    rewrite includes_comma_cons in Hw. apply orb_false_iff in Hw.
    destruct Hw as [Ha Hw]. rewrite lowerChar_comma in Ha.
    rewrite includes_comma_cons, Ha. now apply IH.
Qed.

Lemma comma_replaceGreaterSpaces (s : string) :
  includes (replaceGreaterSpaces s) "," = includes s ",".
Proof.
  induction s as [|d t IH]; [reflexivity|].
  assert (includes (String d (replaceGreaterSpaces t)) ","
          = includes (String d t) ",") as K
      by now rewrite !includes_comma_cons, IH.
  rewrite replaceGreaterSpaces_cons.
  destruct (afterWord "greater" (String d t)) as [[|c r]|] eqn:A;
    try exact K.
  destruct (isSpace c); [|exact K].
  rewrite comma_trimStart. symmetry.
  now apply (comma_afterWord "greater").
Qed.

Lemma comma_replaceSpacesArea (s : string) :
  includes (replaceSpacesArea s) "," = includes s ",".
Proof.
  induction s as [|c t IH]; [reflexivity|].
  assert (includes (String c (replaceSpacesArea t)) ","
          = includes (String c t) ",") as K
      by now rewrite !includes_comma_cons, IH.
  rewrite replaceSpacesArea_cons.
  destruct (isSpace c) eqn:E; [|exact K].
  destruct (afterWord "area" (trimStart t)) as [rest|] eqn:A; [|exact K].
  rewrite includes_comma_cons, (space_not_comma _ E). cbn [orb].
  rewrite <- (comma_trimStart t). symmetry.
  now apply (comma_afterWord "area").
Qed.

Lemma comma_stripGreaterArea (s : string) :
  includes (stripGreaterArea s) "," = includes s ",".
Proof.
  unfold stripGreaterArea.
  destruct (includes s "Greater" && includes s "Area"); [|reflexivity].
  now rewrite comma_replaceSpacesArea, comma_replaceGreaterSpaces.
Qed.

(** A name every object inherits is not a key of the table of countries,
    is not empty and is not "GB". *)
Lemma inherited_key (k : string) :
  In k objectPrototypeKeys ->
  getProperty countryNames k = Inherited
  /\ truthy (Str k) = true /\ strictEq (Str k) "GB" = false.
Proof.
  intros H. simpl in H.
  repeat (destruct H as [<-|H]; [repeat split; reflexivity|]).
  contradiction.
Qed.

Lemma getProperty_Inherited (k : string) :
  getProperty countryNames k = Inherited -> In k objectPrototypeKeys.
Proof.
  unfold getProperty. destruct (assoc k countryNames); [discriminate|].
  destruct (existsb (String.eqb k) objectPrototypeKeys) eqn:E;
    [|discriminate].
  intros _. apply existsb_exists in E. destruct E as (x & Hx & Ex).
  apply String.eqb_eq in Ex. now subst.
Qed.

End CommaFacts.

(** X9. The normaliser throws exactly when the location is a string with
    a comma and the country is the name of a property every object
    inherits ("constructor", "toString", ...): the lookup in the table of
    country names then finds a function, not a name. *)
Theorem X9_normalizer_throws_iff (loc ctry : text) :
  (exists message, normalizeLocation loc ctry = Throw message)
  <-> exists s k,
        loc = Str s /\ ctry = Str k
        /\ includes s "," = true /\ In k objectPrototypeKeys.
Proof.
  split.
  - intros [message H]. unfold normalizeLocation in H.
    destruct (negb (truthy loc) || strictEq loc "null"
              || (toLowerCase (interpolate loc) =? "world")) eqn:G;
      [discriminate|].
    unfold stripCountryName in H.
    destruct (truthy ctry) eqn:T; [|discriminate].
    cbn [andb] in H.
    destruct (includes _ ",") eqn:C in H; [|discriminate].
    destruct (getProperty countryNames (interpolate ctry)) as [name| |] eqn:L;
      [destruct (negb (name =? "") && includes _ _); discriminate | |
       discriminate].
    destruct loc as [| |s]; try discriminate.
    destruct ctry as [| |k]; try discriminate.
    exists s, k. cbn [interpolate] in *.
    apply getProperty_Inherited in L.
    destruct (inherited_key k L) as (_ & _ & GB).
    unfold stripUK in C. rewrite GB in C. cbn [andb] in C.
    rewrite comma_stripGreaterArea, comma_trim in C. auto.
  - intros (s & k & -> & -> & C & K).
    destruct (inherited_key k K) as (L & T & GB).
    exists "countryName.toLowerCase is not a function".
    unfold normalizeLocation.
    assert (negb (truthy (Str s)) || strictEq (Str s) "null"
            || (toLowerCase (interpolate (Str s)) =? "world") = false) as ->.
    { cbn [truthy strictEq interpolate].
      destruct (String.eqb_spec s "") as [->|_]; [discriminate|].
      destruct (String.eqb_spec s "null") as [->|_]; [discriminate|].
      destruct (String.eqb_spec (toLowerCase s) "world") as [E|_];
        [|reflexivity].
      rewrite <- comma_toLowerCase, E in C. discriminate. }
    unfold stripCountryName. rewrite T. cbn [andb].
    unfold stripUK. rewrite GB. cbn [andb interpolate].
    rewrite comma_stripGreaterArea, comma_trim, C.
    now rewrite L.
Qed.

Section CompletionMore.
Variable P : Provider.

Lemma geocodeLoop_completes_iff (locs : list (string * LocationData)) :
  forall st : GeocodeState P,
    (exists st', geocodeLoop P st locs = Normal st')
    <-> Forall (fun loc => exists n,
                    normalizeLocation (loc_location (snd loc))
                                      (loc_country (snd loc)) = Normal n)
               locs.
Proof.
  induction locs as [|loc locs IH]; intros st; simpl.
  - split; [constructor | now eexists].
  - unfold geocodeStep.
    destruct (normalizeLocation (loc_location (snd loc))
                                (loc_country (snd loc))) as [n|msg] eqn:N.
    + cbn [bind]. destruct (geocode P (world st) _) as [answer w].
      destruct answer as [[[|hit hits]|]|message]; cbn [bind];
        rewrite IH; (split; [intros F; constructor; [now exists n | exact F]
                            | intros F; now inversion F]).
    + cbn [bind]. split; [intros [st' H]; discriminate|].
      intros F. inversion F as [|? ? [n H] _]. congruence.
Qed.

End CompletionMore.

(** X10. A run of the geocoder completes exactly when the normaliser
    returns for every entry of the location set; otherwise it ends in
    the outer [catch] and saves nothing. *)
Theorem X10_run_completes_iff
  (P : Provider) (w : World P) (ms : list RawTeamRecord) :
  (exists out, geocodeTeamData P w ms = Normal out)
  <-> forall k d, In (k, d) (collectLocations ms) ->
                  exists n, normalizeLocation (loc_location d)
                                              (loc_country d) = Normal n.
Proof.
  pose proof (allLocationsOf_Permutation (collectLocations ms)) as Pm.
  unfold geocodeTeamData.
  match goal with
  | |- context [geocodeLoop P ?s ?l] =>
      pose proof (geocodeLoop_completes_iff P l s) as I
  end.
  rewrite Forall_forall in I. split.
  - intros [out H] k d Hin.
    destruct (geocodeLoop P _ _) as [st|msg]; [|discriminate].
    apply (proj1 I (ex_intro _ st eq_refl) (k, d)).
    now apply (Permutation_in _ (Permutation_sym Pm)).
  - intros H.
    destruct (proj2 I) as [st' ->].
    + intros [k d] Hin. apply (H k d). now apply (Permutation_in _ Pm).
    + cbn [bind]. now eexists.
Qed.

(** X11. The normaliser only removes characters: what it returns for a
    string of ASCII characters is ASCII text, and it is the sentinel, when
    the string is empty, "null" or "world" in any letter case, or else is
    not longer than the string. *)
Theorem X11_normalizer_only_removes (s : string) (ctry : text) (n : string) :
  asciiOnly s = true ->
  normalizeLocation (Str s) ctry = Normal n ->
  asciiOnly n = true
  /\ ((n = "North Pole"
       /\ (s = "" \/ s = "null" \/ toLowerCase s = "world"))
      \/ String.length n <= String.length s).
Proof.
  intros A H.
  split; [exact (asciiOnly_normalizeLocation (Str s) ctry n A H)|].
  revert H.
  unfold normalizeLocation. cbn [truthy strictEq interpolate].
  destruct (String.eqb_spec s "") as [->|_];
    [intros H; injection H as <-; left; auto|].
  destruct (String.eqb_spec s "null") as [->|_];
    [intros H; injection H as <-; left; auto|].
  destruct (String.eqb_spec (toLowerCase s) "world") as [E|_];
    [intros H; injection H as <-; left; auto|].
  cbn [negb orb]. intros H. right.
  apply stripCountryName_length in H.
  destruct (Shrinks_stripGreaterArea (stripUK ctry (trim s))) as [L3 _].
  destruct (Shrinks_trim s) as [L1 _].
  destruct (stripUK_cases ctry (trim s)) as [[_ U]|[_ U]];
    [rewrite U in *|]; lia.
Qed.

(** X12. Under a country of the table, what the normaliser returns for
    a location of ASCII characters is never a string that has a comma and
    contains the name of that country, letter case ignored. *)
Theorem X12_no_comma_with_country_name
  (loc ctry : text) (n name : string) :
  asciiText loc = true ->
  normalizeLocation loc ctry = Normal n ->
  assoc (interpolate ctry) countryNames = Some name ->
  includes n "," = true ->
  asciiOnly n = true /\ ~ ContainsIgnoringCase n name.
Proof.
  intros Ha H A C.
  split; [exact (asciiOnly_normalizeLocation _ _ _ Ha H)|]. intros N. apply includes_lower_iff in N.
  assert (truthy ctry = true /\ negb (name =? "") = true) as [T NE].
  { destruct ctry as [| |k];
      [vm_compute in A; discriminate | vm_compute in A; discriminate |].
    cbn [interpolate] in A. apply assoc_In in A. simpl in A.
    repeat (destruct A as [A|A];
            [injection A as <- <-; split; reflexivity|]).
    contradiction. }
  unfold normalizeLocation in H.
  destruct (negb (truthy loc) || strictEq loc "null"
            || (toLowerCase (interpolate loc) =? "world"));
    [injection H as <-; discriminate|].
  unfold stripCountryName, getProperty in H. rewrite T, A, NE in H.
  cbn [andb] in H.
  destruct (includes (stripGreaterArea _) ",") eqn:C0.
  - destruct (includes (toLowerCase _) (toLowerCase name)) eqn:I.
    + injection H as <-.
      assert (includes (beforeComma (stripGreaterArea
                (stripUK ctry (trim (interpolate loc))))) "," = true) as B
          by (apply includes_trim; exact C).
      now rewrite includes_beforeComma in B.
    + injection H as <-. congruence.
  - injection H as <-. congruence.
Qed.

(** X13. Every location the normaliser replaces by the sentinel is
    classified problematic, so its entry is among the problematic ones. *)
Theorem X13_sentinel_inputs_are_problematic (loc : text) :
  SentinelInput loc -> isPotentiallyProblematic loc = true.
Proof.
  intros [->|[->|[->|[->|(s & -> & H)]]]]; try reflexivity.
  unfold isPotentiallyProblematic. cbn [truthy strictEq interpolate].
  destruct (negb (negb (s =? "")) || (s =? "null")); [reflexivity|].
  rewrite H. reflexivity.
Qed.

(** ** The processor, and the two scripts one after the other *)

Section MergeMore.

Lemma In_teamOf (now : string) (ms : list RawTeamRecord)
  (rs : list GeocodeResult) (e : EnrichedMember) :
  In e (teamOf now ms rs)
  <-> exists m c, In m ms
                  /\ assoc (memberKey m) (buildLocationMap rs) = Some c
                  /\ e = enrich m c.
Proof.
  rewrite teamOf_eq, In_notNull, in_map_iff. unfold emit. split.
  - intros (m & E & Hm).
    destruct (assoc (memberKey m) (buildLocationMap rs)) as [c|] eqn:A;
      [|discriminate].
    injection E as <-. now exists m, c.
  - intros (m & c & Hm & A & ->). exists m. now rewrite A.
Qed.

Lemma buildLocationMap_last (rs1 rs2 : list GeocodeResult)
  (r : GeocodeResult) (g : Geocoded) :
  success r = true -> geocoded r = Some g ->
  (forall r', In r' rs2 -> resultKey r' = resultKey r ->
              success r' = false \/ geocoded r' = None) ->
  assoc (resultKey r) (buildLocationMap (rs1 ++ r :: rs2))
  = Some (coordsOf g).
Proof.
  intros Hs Hg H. unfold buildLocationMap.
  rewrite fold_left_app. cbn [fold_left].
  generalize (addResult (fold_left addResult rs1 []) r)
             (addResult_lookup (resultKey r) r (fold_left addResult rs1 [])).
  rewrite Hs, Hg, String.eqb_refl. clear rs1.
  induction rs2 as [|x rs2 IH]; intros lm L; [exact L|].
  cbn [fold_left]. apply IH.
  - intros r' Hin. apply H. now right.
  - rewrite addResult_lookup.
    destruct (success x) eqn:Sx; [|exact L].
    destruct (geocoded x) eqn:Gx; [|exact L].
    destruct (String.eqb_spec (resultKey x) (resultKey r)) as [E|_];
      [|exact L].
    destruct (H x (or_introl eq_refl) E); congruence.
Qed.

Lemma map_filter_notNull {A B C : Type} (f : A -> option B) (g : B -> C)
  (h : A -> C) (l : list A) :
  (forall a b, f a = Some b -> g b = h a) ->
  map g (notNull (map f l))
  = map h (filter (fun a => match f a with Some _ => true | None => false end)
                  l).
Proof.
  intros H. induction l as [|a l IH]; [reflexivity|].
  simpl. destruct (f a) as [b|] eqn:E; simpl; [|exact IH].
  now rewrite IH, (H a b E).
Qed.

End MergeMore.

(** X14. Every member of the dataset comes from a record and from a
    result that succeeded, has coordinates and has the key of the record:
    the processor never emits coordinates of its own.  No assumption on
    the list of results is needed. *)
Theorem X14_coordinates_come_from_a_result
  (now : string) (ms : list RawTeamRecord) (rs : list GeocodeResult)
  (e : EnrichedMember) :
  In e (teamOf now ms rs) ->
  exists m r g,
    In m ms /\ In r rs
    /\ success r = true /\ geocoded r = Some g
    /\ locationKey (res_location r) (res_country r)
       = locationKey (location m) (country m)
    /\ em_latitude e = lat g /\ em_longitude e = lng g
    /\ em_formattedAddress e = geo_formattedAddress g
    /\ em_id e = squeakId m /\ em_name e = fullName m.
Proof.
  intros H. apply In_teamOf in H. destruct H as (m & c & Hm & A & ->).
  apply buildLocationMap_source in A.
  destruct A as [A|(r & g & Hr & Hs & Hg & Hk & ->)]; [discriminate|].
  exists m, r, g. repeat split; assumption.
Qed.

(** X15. When several results that succeeded have the key of a record,
    the record gets the coordinates of the last of them. *)
Theorem X15_last_result_of_a_key_wins
  (now : string) (rs1 rs2 : list GeocodeResult) (r : GeocodeResult)
  (g : Geocoded) (m : RawTeamRecord) :
  success r = true -> geocoded r = Some g ->
  locationKey (res_location r) (res_country r)
  = locationKey (location m) (country m) ->
  (forall r', In r' rs2 ->
              locationKey (res_location r') (res_country r')
              = locationKey (location m) (country m) ->
              success r' = false \/ geocoded r' = None) ->
  teamOf now [m] (rs1 ++ r :: rs2) = [enrich m (coordsOf g)]
  /\ em_latitude (enrich m (coordsOf g)) = lat g
  /\ em_longitude (enrich m (coordsOf g)) = lng g.
Proof.
  intros Hs Hg Hk H. split; [|split; reflexivity].
  rewrite teamOf_eq. cbn [map notNull]. unfold emit, memberKey.
  rewrite <- Hk. fold (resultKey r).
  rewrite (buildLocationMap_last rs1 rs2 r g Hs Hg); [reflexivity|].
  intros r' Hin E. apply (H r' Hin). unfold resultKey in E.
  now rewrite E.
Qed.

(** X16. The processor keeps the order of the records: the dataset holds
    the records whose key is in the lookup map, the warnings are for the
    others, both in the order of the records.  [processed] is the length
    of the dataset and [totalMembers], [skipped] is the number of
    warnings, and the two add up to the number of records. *)
Theorem X16_order_and_counters
  (now : string) (ms : list RawTeamRecord) (rs : list GeocodeResult) :
  map em_id (team (fst (processTeamData now ms rs)))
  = map squeakId
        (filter (fun m => mapHas (locationKey (location m) (country m))
                                 (buildLocationMap rs)) ms)
  /\ warnings (snd (processTeamData now ms rs))
     = map warningFor
           (filter (fun m => negb (mapHas (locationKey (location m) (country m))
                                          (buildLocationMap rs))) ms)
  /\ processed (snd (processTeamData now ms rs))
     = List.length (team (fst (processTeamData now ms rs)))
  /\ totalMembers (metadata (fst (processTeamData now ms rs)))
     = List.length (team (fst (processTeamData now ms rs)))
  /\ skipped (snd (processTeamData now ms rs))
     = List.length (warnings (snd (processTeamData now ms rs)))
  /\ processed (snd (processTeamData now ms rs))
     + skipped (snd (processTeamData now ms rs)) = List.length ms.
Proof.
  pose proof (teamOf_eq now ms rs) as T.
  pose proof (warningsOf_eq now ms rs) as W.
  unfold teamOf, warningsOf in *.
  pose proof (mapMembers_spec (buildLocationMap rs) ms
                {| processed := 0; skipped := 0; warnings := [] |})
    as (M1 & M2 & M3 & M4).
  assert (processed (snd (processTeamData now ms rs))
          = List.length (notNull (map (emit (buildLocationMap rs)) ms))
          /\ skipped (snd (processTeamData now ms rs))
             = List.length (filter (unresolved (buildLocationMap rs)) ms)
          /\ totalMembers (metadata (fst (processTeamData now ms rs)))
             = List.length (team (fst (processTeamData now ms rs))))
    as (C1 & C2 & C3).
  { unfold processTeamData.
    destruct (mapMembers _ _ ms) as [l st]. simpl in *. auto. }
  rewrite T, W, C1, C2 in *. clear M1 M2 M3 M4.
  assert (map em_id (notNull (map (emit (buildLocationMap rs)) ms))
          = map squeakId
                (filter (fun m => mapHas (memberKey m) (buildLocationMap rs))
                        ms)) as O.
  { rewrite (map_filter_notNull (emit (buildLocationMap rs)) em_id squeakId).
    - f_equal. apply filter_ext. intros m. unfold emit, mapHas.
      now destruct (assoc (memberKey m) (buildLocationMap rs)).
    - intros m e. unfold emit.
      destruct (assoc (memberKey m) (buildLocationMap rs)); [|discriminate].
      intros E. now injection E as <-. }
  split; [exact O|]. split; [reflexivity|]. split; [reflexivity|].
  split; [exact C3|]. split; [now rewrite length_map|].
  rewrite <- (length_map em_id), O, length_map.
  pose proof (filter_length (fun m => mapHas (memberKey m)
                                             (buildLocationMap rs)) ms) as FL.
  unfold unresolved. exact FL.
Qed.

Section PipelineFacts.

Lemma NoDup_map_inj {A B : Type} (f : A -> B) (l : list A) (x y : A) :
  NoDup (map f l) -> In x l -> In y l -> f x = f y -> x = y.
Proof.
  induction l as [|a l IH]; intros ND Hx Hy E; [contradiction|].
  simpl in ND. inversion ND as [|? ? Hn ND']; subst.
  destruct Hx as [->|Hx], Hy as [->|Hy]; auto.
  - exfalso. apply Hn. rewrite E. now apply in_map.
  - exfalso. apply Hn. rewrite <- E. now apply in_map.
Qed.

Lemma results_cover_keys (P : Provider) (w : World P)
  (ms : list RawTeamRecord) (out : GeocodeOutput) (m : RawTeamRecord) :
  geocodeTeamData P w ms = Normal out -> In m ms ->
  exists r, In r (allResults out) /\ resultKey r = memberKey m.
Proof.
  intros H Hm.
  destruct (geocodeTeamData_inv P _ _ _ H)
    as (st & qs & V1 & V2 & _ & _ & _ & _ & ->).
  cbn [allResults].
  destruct (collectLocations_member _ _ Hm) as (d & A & _ & _ & _).
  apply assoc_In in A.
  apply (Permutation_in _ (Permutation_sym
           (allLocationsOf_Permutation (collectLocations ms)))) in A.
  assert (In d (map res_data (mapValues (geocodeResults st)))) as Hd.
  { rewrite V1. apply in_map_iff. now exists (memberKey m, d). }
  apply in_map_iff in Hd. destruct Hd as (r & <- & Hr).
  exists r. split; [exact Hr|].
  apply (Permutation_in _ (allLocationsOf_Permutation _)) in A.
  symmetry. exact (collectLocations_keyed ms _ _ A).
Qed.

End PipelineFacts.

(** X17. The two scripts one after the other: after a run of the geocoder
    that completes, every record has one result of its key; when that
    result succeeded the record is in the dataset with the coordinates of
    the result, and when it failed the record is not in the dataset and
    is warned about. *)
Theorem X17_every_record_is_placed_or_warned
  (P : Provider) (w : World P) (now : string) (ms : list RawTeamRecord)
  (out : GeocodeOutput) (m : RawTeamRecord) :
  geocodeTeamData P w ms = Normal out ->
  In m ms ->
  exists r,
    In r (allResults out)
    /\ locationKey (res_location r) (res_country r)
       = locationKey (location m) (country m)
    /\ ((success r = true
         /\ exists g, geocoded r = Some g
                      /\ In (enrich m (coordsOf g))
                            (teamOf now ms (allResults out)))
        \/ (success r = false
            /\ In (warningFor m) (warningsOf now ms (allResults out))
            /\ forall c, ~ In (enrich m c)
                              (teamOf now ms (allResults out)))).
Proof.
  intros H Hm.
  destruct (results_cover_keys P w ms out m H Hm) as (r & Hr & Hk).
  pose proof (geocodeTeamData_results_unique P w ms out H) as ND.
  destruct (geocodeTeamData_inv P _ _ _ H)
    as (st & qs & _ & V2 & _ & _ & _ & _ & E).
  assert (wellFormed r) as W.
  { rewrite E in Hr. cbn [allResults] in Hr.
    rewrite Forall_forall in V2. apply (V2 r Hr). }
  clear E V2. exists r. split; [exact Hr|]. split; [exact Hk|].
  destruct W as [(Hs & Hg & _)|(Hs & Hg & _)].
  - left. split; [exact Hs|].
    destruct (geocoded r) as [g|] eqn:G; [|contradiction].
    exists g. split; [reflexivity|].
    apply In_teamOf. exists m, (coordsOf g). repeat split; [exact Hm|].
    rewrite <- Hk. now apply buildLocationMap_unique.
  - right. split; [exact Hs|].
    assert (assoc (memberKey m) (buildLocationMap (allResults out)) = None)
      as A.
    { apply buildLocationMap_absent. intros r' Hr' Hk'.
      assert (r' = r) as ->; [|now left].
      apply (NoDup_map_inj resultKey (allResults out)); try assumption.
      congruence. }
    split.
    + rewrite warningsOf_eq. apply in_map, filter_In.
      split; [exact Hm|]. unfold unresolved, mapHas. now rewrite A.
    + intros c Hin. apply In_teamOf in Hin.
      destruct Hin as (m' & c' & _ & A' & E').
      assert (memberKey m' = memberKey m) as K.
      { unfold memberKey.
        change (location m') with (em_location (enrich m' c')).
        change (country m') with (em_country (enrich m' c')).
        now rewrite <- E'. }
      congruence.
Qed.

Section RegionFacts.

Lemma one_region (c : text) :
  let n (b : bool) := if b then 1 else 0 in
  n (strictEq c "US" || strictEq c "CA")
  + n (arrayIncludes europeCodes c)
  + n (arrayIncludes southAmericaCodes c)
  + n (negb (arrayIncludes regionCodes c)) = 1.
Proof.
  destruct c as [| |s]; [reflexivity | reflexivity |].
  cbn [strictEq arrayIncludes existsb europeCodes southAmericaCodes
       regionCodes].
  repeat match goal with
         | |- context [s =? ?k] =>
             destruct (String.eqb_spec s k); [subst; reflexivity|]
         end.
  reflexivity.
Qed.

End RegionFacts.

(** X18. The four regions of the statistics share the dataset out: every
    member is in exactly one of them, whatever its country is (a country
    that is missing or not in the lists is in 'Other'), so the four
    numbers add up to the number of members. *)
Theorem X18_regions_partition (processedMembers : list EnrichedMember) :
  List.length (northAmerica (regionsOf processedMembers))
  + List.length (europe (regionsOf processedMembers))
  + List.length (southAmerica (regionsOf processedMembers))
  + List.length (other (regionsOf processedMembers))
  = List.length processedMembers.
Proof.
  unfold regionsOf. cbn [northAmerica europe southAmerica other].
  induction processedMembers as [|m l IH]; [reflexivity|].
  cbn [filter List.length].
  pose proof (one_region (em_country m)) as R. cbv zeta in R.
  unfold inNorthAmerica, inEurope, inSouthAmerica, inOther in *.
  destruct (strictEq (em_country m) "US" || strictEq (em_country m) "CA"),
           (arrayIncludes europeCodes (em_country m)),
           (arrayIncludes southAmericaCodes (em_country m)),
           (arrayIncludes regionCodes (em_country m));
    cbn [negb List.length] in *; lia.
Qed.

(** ** The server *)

Section ServerFacts.
Context {Profile : Type}.

Lemma handle_team_loaded (caches : @Caches Profile) (files : Files)
  (req : request) (d : FinalData) :
  teamCache caches = Some d ->
  teamCache (snd (handle caches files req)) = Some d
  /\ teamAnswer d req (fst (handle caches files req)).
Proof.
  intros H. destruct req; simpl.
  - unfold teamList, loadTeamData. rewrite H. simpl. auto.
  - unfold teamById, loadTeamData. rewrite H. simpl. auto.
  - unfold applicant. destruct (loadApplicantData _ _). simpl. auto.
Qed.

Lemma serve_cons (caches : @Caches Profile) (files : Files) (req : request)
  (rest : list (Files * request)) :
  serve caches ((files, req) :: rest)
  = (fst (handle caches files req)
       :: fst (serve (snd (handle caches files req)) rest),
     snd (serve (snd (handle caches files req)) rest)).
Proof.
  simpl. destruct (handle caches files req) as [r c].
  simpl. now destruct (serve c rest).
Qed.

Lemma serve_team_loaded (requests : list (Files * request)) :
  forall (caches : @Caches Profile) (d : FinalData),
    teamCache caches = Some d ->
    teamCache (snd (serve caches requests)) = Some d
    /\ Forall2 (fun fr r => teamAnswer d (snd fr) r)
               requests (fst (serve caches requests)).
Proof.
  induction requests as [|[files req] rest IH]; intros caches d H.
  - simpl. split; [exact H | constructor].
  - rewrite serve_cons. cbn [fst snd].
    destruct (handle_team_loaded caches files req d H) as [H1 H2].
    destruct (IH _ d H1) as [I1 I2].
    split; [exact I1|]. now constructor.
Qed.

End ServerFacts.

(** X19. Once the team file has been loaded, every later request for the
    team is answered from the loaded dataset, whatever the file holds or
    whether it can still be read, and the dataset stays loaded: [/team]
    gives its metadata and team, [/team/:id] the answer of the lookup. *)
Theorem X19_team_file_is_read_once
  (Profile : Type) (caches : @Caches Profile)
  (requests : list (Files * request)) (d : FinalData) :
  teamCache caches = Some d ->
  teamCache (snd (serve caches requests)) = Some d
  /\ Forall2
       (fun fr r =>
          match snd fr with
          | GetTeam =>
              r = Normal (TeamReply {| list_success := true;
                                       list_metadata := metadata d;
                                       list_team := team d |})
          | GetTeamById id => r = Normal (MemberReply (getMember d id))
          | GetApplicant => True
          end)
       requests (fst (serve caches requests)).
Proof.
  intros H. exact (serve_team_loaded requests caches d H).
Qed.

(** X20. With nothing loaded, a request for the team whose read of the
    file throws is answered with that error and loads nothing, so the
    requests after it are served as if it had not come; a request whose
    read succeeds loads the dataset, and the later requests for the team
    are answered from it. *)
Theorem X20_first_read_loads_failed_read_does_not
  (Profile : Type) (caches : @Caches Profile) (files : Files)
  (req : request) (rest : list (Files * request)) :
  teamCache caches = None -> isTeamRequest req = true ->
  (forall message,
      teamFile files = Throw message ->
      serve caches ((files, req) :: rest)
      = (Throw message :: fst (serve caches rest), snd (serve caches rest)))
  /\ (forall d,
         teamFile files = Normal d ->
         teamAnswer d req (fst (handle caches files req))
         /\ teamCache (snd (serve caches ((files, req) :: rest))) = Some d
         /\ Forall2 (fun fr r => teamAnswer d (snd fr) r) rest
                    (tl (fst (serve caches ((files, req) :: rest))))).
Proof.
  intros H T. split.
  - intros message F. rewrite serve_cons.
    assert (handle caches files req = (Throw message, caches)) as ->.
    { destruct caches as [tc ac]. cbn [teamCache] in H. subst tc.
      destruct req; try discriminate; simpl;
        unfold teamList, teamById, loadTeamData; rewrite F; reflexivity. }
    reflexivity.
  - intros d F. rewrite serve_cons. cbn [fst snd tl].
    assert (teamCache (snd (handle caches files req)) = Some d
            /\ teamAnswer d req (fst (handle caches files req))) as [C A].
    { destruct req; try discriminate; simpl;
        unfold teamList, teamById, loadTeamData; rewrite H, F; simpl; auto. }
    split; [exact A|].
    exact (serve_team_loaded rest _ d C).
Qed.

Section LookupFacts.

Lemma find_unique {A : Type} (f : A -> bool) (l : list A) (x : A) :
  In x l -> f x = true -> (forall y, In y l -> f y = true -> y = x) ->
  find f l = Some x.
Proof.
  intros Hx Fx U. destruct (find f l) as [y|] eqn:E.
  - apply find_some in E. destruct E as [Hy Fy]. f_equal. now apply U.
  - rewrite (find_none _ _ E x Hx) in Fx. discriminate.
Qed.

Lemma getMember_cases (loaded : FinalData) (id : string) :
  (getMember loaded id = notFound
   /\ forall m, In m (team loaded) -> hasIdentifier id m = false)
  \/ exists m, getMember loaded id = found m
               /\ In m (team loaded) /\ hasIdentifier id m = true.
Proof.
  unfold getMember. fold (hasIdentifier id).
  destruct (find (hasIdentifier id) (team loaded)) as [m|] eqn:F.
  - right. exists m. apply find_some in F. tauto.
  - left. split; [reflexivity|]. intros m Hm. exact (find_none _ _ F m Hm).
Qed.

End LookupFacts.

(** X21. The lookup answers 200 or 404 and nothing else.  For an
    identifier of ASCII characters from which [parseInt] reads a safe
    integer or no number: the member of a 200 is in the dataset and its
    id is the integer [parseInt] reads from the identifier, and an
    identifier from which [parseInt] reads no number gets 404 from every
    dataset. *)
Theorem X21_only_numbers_match (loaded : FinalData) (id : string) :
  asciiOnly id = true ->
  (forall z, parseInt id = Some z -> isSafeInteger z = true) ->
  (getMember loaded id = notFound
   \/ exists m z,
        getMember loaded id = found m /\ In m (team loaded)
        /\ parseInt id = Some z /\ isSafeInteger z = true
        /\ em_id m = JNum (decimalText z))
  /\ (parseInt id = None -> getMember loaded id = notFound).
Proof.
  intros _ Safe.
  destruct (getMember_cases loaded id) as [[N _]|(m & F & Hm & Hi)].
  - split; [now left | auto].
  - unfold hasIdentifier, strictEqNumber in Hi.
    destruct (em_id m) as [| |b|t|t] eqn:E; try discriminate.
    destruct (parseInt id) as [z|] eqn:Pz; [|discriminate].
    apply String.eqb_eq in Hi. subst t. split; [|discriminate].
    right. exists m, z. repeat split; try assumption.
    apply Safe. reflexivity.
Qed.

Section ParseIntMore.
Import Decimal.

Lemma readDigits_uint_app (d : uint) :
  forall acc seen c r,
    digitValue 10 c = None ->
    readDigits 10 acc seen (NilEmpty.string_of_uint d ++ String c r)
    = match d with
      | Nil => if seen then Some acc else None
      | _ => Some (uintValue d acc)
      end.
Proof.
  induction d; intros acc seen c r Hc;
    cbn [NilEmpty.string_of_uint append readDigits];
    [now rewrite Hc|..];
    match goal with
    | |- context [digitValue 10 ?k] =>
        let v := eval vm_compute in (digitValue 10 k) in
        change (digitValue 10 k) with v
    end;
    cbv beta iota; rewrite (IHd _ _ _ _ Hc); destruct d; reflexivity.
Qed.

Lemma readUnsigned_zero (c : ascii) (r : string) :
  c <> "x"%char -> c <> "X"%char ->
  readUnsigned (String "0" (String c r))
  = readDigits 10 0 false (String "0" (String c r)).
Proof.
  intros H1 H2.
  destruct c as [[] [] [] [] [] [] [] []]; try reflexivity;
    exfalso; (now apply H1) || (now apply H2).
Qed.

Lemma readUnsigned_uint_app (d : uint) (c : ascii) (r : string) :
  d <> Nil -> (d = D0 Nil -> c <> "x"%char /\ c <> "X"%char) ->
  readUnsigned (NilEmpty.string_of_uint d ++ String c r)
  = readDigits 10 0 false (NilEmpty.string_of_uint d ++ String c r).
Proof.
  intros N H. destruct d; try contradiction; try reflexivity.
  destruct d; try reflexivity.
  destruct (H eq_refl) as [H1 H2]. now apply readUnsigned_zero.
Qed.

Lemma parseInt_uint_app (d : uint) (c : ascii) (r : string) :
  d <> Nil -> (d = D0 Nil -> c <> "x"%char /\ c <> "X"%char) ->
  digitValue 10 c = None ->
  parseInt (NilEmpty.string_of_uint d ++ String c r) = Some (uintValue d 0).
Proof.
  intros N H Hc.
  assert (parseInt (NilEmpty.string_of_uint d ++ String c r)
          = readUnsigned (NilEmpty.string_of_uint d ++ String c r)) as ->
      by (destruct d; [contradiction | reflexivity ..]).
  rewrite (readUnsigned_uint_app d c r N H), (readDigits_uint_app d _ _ _ _ Hc).
  destruct d; [contradiction | reflexivity ..].
Qed.

Lemma to_uint_not_zero (p : positive) : Pos.to_uint p <> D0 Nil.
Proof.
  intros E. pose proof (DecimalPos.Unsigned.of_to p) as H.
  rewrite E in H. discriminate.
Qed.

Lemma parseInt_decimalText_app (z : Z) (c : ascii) (r : string) :
  digitValue 10 c = None ->
  (z = 0%Z -> c <> "x"%char /\ c <> "X"%char) ->
  parseInt (decimalText z ++ String c r) = Some z.
Proof.
  intros Hc Hz. unfold decimalText. destruct z as [|p|p].
  - cbn [Z.to_int NilZero.string_of_int NilZero.string_of_uint].
    apply (parseInt_uint_app (D0 Nil)); [discriminate | auto | exact Hc].
  - cbn [Z.to_int NilZero.string_of_int].
    pose proof (to_uint_nonnil p) as N.
    assert (NilZero.string_of_uint (Pos.to_uint p)
            = NilEmpty.string_of_uint (Pos.to_uint p)) as ->
        by (destruct (Pos.to_uint p); [contradiction | reflexivity ..]).
    rewrite (parseInt_uint_app _ c r N); [|intros E; now destruct (to_uint_not_zero p)|exact Hc].
    now rewrite uintValue_of_uint, DecimalPos.Unsigned.of_to.
  - cbn [Z.to_int NilZero.string_of_int].
    pose proof (to_uint_nonnil p) as N.
    assert (NilZero.string_of_uint (Pos.to_uint p)
            = NilEmpty.string_of_uint (Pos.to_uint p)) as ->
        by (destruct (Pos.to_uint p); [contradiction | reflexivity ..]).
    cbn [append]. rewrite parseInt_minus.
    rewrite (readUnsigned_uint_app _ c r N);
      [|intros E; now destruct (to_uint_not_zero p)].
    rewrite (readDigits_uint_app _ _ _ _ _ Hc).
    destruct (Pos.to_uint p) eqn:E; [contradiction | ..];
      rewrite <- E, uintValue_of_uint, DecimalPos.Unsigned.of_to;
      reflexivity.
Qed.

End ParseIntMore.

(** X22. What follows the number in an identifier is ignored: the decimal
    text of a safe integer followed by a character that is no digit (and, after
    "0", no "x" or "X", which would start a hexadecimal number) is read as
    that integer, so the lookup answers as for the number alone. *)
Theorem X22_trailing_characters_are_ignored
  (loaded : FinalData) (z : Z) (c : ascii) (r : string) :
  isSafeInteger z = true ->
  digitValue 10 c = None ->
  (z = 0%Z -> c <> "x"%char /\ c <> "X"%char) ->
  parseInt (decimalText z ++ String c r) = Some z
  /\ getMember loaded (decimalText z ++ String c r)
     = getMember loaded (decimalText z).
Proof.
  intros _ Hc Hz.
  pose proof (parseInt_decimalText_app z c r Hc Hz) as E.
  split; [exact E|]. unfold getMember.
  now rewrite E, parseInt_decimalText.
Qed.

(** X23. The processor and the lookup one after the other: when the ids
    of the records are distinct, the lookup by the decimal text of the id
    of a record answers with the member made from that record if the
    record is in the dataset, and with 404 if it is not. *)
Theorem X23_lookup_finds_the_merged_record
  (now : string) (ms : list RawTeamRecord) (rs : list GeocodeResult)
  (m : RawTeamRecord) (z : Z) :
  NoDup (map squeakId ms) -> In m ms ->
  squeakId m = JNum (decimalText z) ->
  (forall c, In (enrich m c) (teamOf now ms rs) ->
             getMember (fst (processTeamData now ms rs)) (decimalText z)
             = found (enrich m c))
  /\ ((forall c, ~ In (enrich m c) (teamOf now ms rs)) ->
      getMember (fst (processTeamData now ms rs)) (decimalText z) = notFound).
Proof.
  intros ND Hm Hid.
  assert (forall y, In y (teamOf now ms rs) ->
                    hasIdentifier (decimalText z) y = true ->
                    exists c, assoc (memberKey m) (buildLocationMap rs) = Some c
                              /\ y = enrich m c) as U.
  { intros y Hy Fy. unfold hasIdentifier in Fy.
    rewrite parseInt_decimalText in Fy. unfold strictEqNumber in Fy.
    apply In_teamOf in Hy. destruct Hy as (m' & c' & Hm' & A' & ->).
    cbn [em_id enrich] in Fy.
    destruct (squeakId m') as [| |b|t|t] eqn:E; try discriminate.
    apply String.eqb_eq in Fy. subst t.
    assert (m' = m) as ->
        by (apply (NoDup_map_inj squeakId ms); try assumption; congruence).
    now exists c'. }
  split.
  - intros c Hc. unfold getMember. fold (hasIdentifier (decimalText z)).
    change (team (fst (processTeamData now ms rs))) with (teamOf now ms rs).
    assert (hasIdentifier (decimalText z) (enrich m c) = true) as Fx.
    { unfold hasIdentifier. rewrite parseInt_decimalText.
      cbn [em_id enrich]. rewrite Hid. cbn [strictEqNumber].
      apply String.eqb_refl. }
    rewrite (find_unique _ _ (enrich m c) Hc Fx); [reflexivity|].
    intros y Hy Fy. destruct (U y Hy Fy) as (c1 & A1 & ->).
    destruct (U _ Hc Fx) as (c2 & A2 & E2). rewrite E2. congruence.
  - intros N.
    destruct (getMember_cases (fst (processTeamData now ms rs))
                              (decimalText z)) as [[E _]|(y & _ & Hy & Fy)];
      [exact E|].
    destruct (U y Hy Fy) as (c & _ & ->). now destruct (N c).
Qed.

Section IndependenceFacts.
Context {Profile : Type}.

Lemma handle_team_side (c1 c2 : @Caches Profile) (files : Files)
  (req : request) :
  teamCache c1 = teamCache c2 -> isTeamRequest req = true ->
  fst (handle c1 files req) = fst (handle c2 files req)
  /\ teamCache (snd (handle c1 files req))
     = teamCache (snd (handle c2 files req)).
Proof.
  intros E T. destruct req; try discriminate; simpl.
  - rewrite E. destruct (teamList _ _). simpl. auto.
  - rewrite E. destruct (teamById _ _ _). simpl. auto.
Qed.

Lemma handle_applicant_side (c1 c2 : @Caches Profile) (files : Files)
  (req : request) :
  applicantCache c1 = applicantCache c2 -> isTeamRequest req = false ->
  fst (handle c1 files req) = fst (handle c2 files req)
  /\ applicantCache (snd (handle c1 files req))
     = applicantCache (snd (handle c2 files req)).
Proof.
  intros E T. destruct req; try discriminate; simpl.
  rewrite E. destruct (applicant _ _). simpl. auto.
Qed.

Lemma handle_frame (c : @Caches Profile) (files : Files) (req : request) :
  (isTeamRequest req = true ->
   applicantCache (snd (handle c files req)) = applicantCache c)
  /\ (isTeamRequest req = false ->
      teamCache (snd (handle c files req)) = teamCache c).
Proof.
  destruct req; simpl; split; intros T; try discriminate.
  - now destruct (teamList _ _).
  - now destruct (teamById _ _ _).
  - now destruct (applicant _ _).
Qed.

Lemma serve_team_side (requests : list (Files * request)) :
  forall c1 c2 : @Caches Profile,
    teamCache c1 = teamCache c2 ->
    repliesTo isTeamRequest requests (fst (serve c1 requests))
    = fst (serve c2 (requestsFor isTeamRequest requests))
    /\ teamCache (snd (serve c1 requests))
       = teamCache (snd (serve c2 (requestsFor isTeamRequest requests))).
Proof.
  induction requests as [|[files req] rest IH]; intros c1 c2 E.
  - simpl. auto.
  - rewrite serve_cons. unfold repliesTo, requestsFor in *.
    cbn [fst snd combine filter].
    destruct (isTeamRequest req) eqn:T.
    + rewrite serve_cons. cbn [fst snd map].
      destruct (handle_team_side c1 c2 files req E T) as [H1 H2].
      destruct (IH _ _ H2) as [I1 I2].
      split; [now rewrite H1, I1 | exact I2].
    + apply IH.
      rewrite (proj2 (handle_frame c1 files req) T). exact E.
Qed.

Lemma serve_applicant_side (requests : list (Files * request)) :
  forall c1 c2 : @Caches Profile,
    applicantCache c1 = applicantCache c2 ->
    repliesTo isApplicantRequest requests (fst (serve c1 requests))
    = fst (serve c2 (requestsFor isApplicantRequest requests))
    /\ applicantCache (snd (serve c1 requests))
       = applicantCache
           (snd (serve c2 (requestsFor isApplicantRequest requests))).
Proof.
  induction requests as [|[files req] rest IH]; intros c1 c2 E.
  - simpl. auto.
  - rewrite serve_cons. unfold repliesTo, requestsFor, isApplicantRequest in *.
    cbn [fst snd combine filter].
    destruct (isTeamRequest req) eqn:T; cbn [negb].
    + apply IH.
      rewrite (proj1 (handle_frame c1 files req) T). exact E.
    + rewrite serve_cons. cbn [fst snd map].
      destruct (handle_applicant_side c1 c2 files req E T) as [H1 H2].
      destruct (IH _ _ H2) as [I1 I2].
      split; [now rewrite H1, I1 | exact I2].
Qed.

End IndependenceFacts.

(** X24. The two route modules do not interfere: in any sequence of
    requests the replies to the team requests, and the team dataset left
    in memory, are those of the same process serving the team requests
    alone, and likewise for the applicant requests. *)
Theorem X24_routes_do_not_interfere
  (Profile : Type) (caches : @Caches Profile)
  (requests : list (Files * request)) :
  repliesTo isTeamRequest requests (fst (serve caches requests))
  = fst (serve caches (requestsFor isTeamRequest requests))
  /\ teamCache (snd (serve caches requests))
     = teamCache (snd (serve caches (requestsFor isTeamRequest requests)))
  /\ repliesTo isApplicantRequest requests (fst (serve caches requests))
     = fst (serve caches (requestsFor isApplicantRequest requests))
  /\ applicantCache (snd (serve caches requests))
     = applicantCache
         (snd (serve caches (requestsFor isApplicantRequest requests))).
Proof.
  destruct (serve_team_side requests caches caches eq_refl) as [A B].
  destruct (serve_applicant_side requests caches caches eq_refl) as [C D].
  auto.
Qed.

Section BlankFacts.

Lemma lowerChar_space (c : ascii) : isSpace c = true -> lowerChar c = c.
Proof.
  destruct c as [[] [] [] [] [] [] [] []]; intros H;
    try reflexivity; discriminate H.
Qed.

Lemma trimStart_allSpaces (s : string) :
  allSpaces s = true -> trimStart s = "".
Proof.
  induction s as [|c s IH]; [reflexivity|].
  cbn [allSpaces trimStart]. intros H.
  apply andb_true_iff in H. destruct H as [H1 H2].
  rewrite H1. now apply IH.
Qed.

Lemma toLowerCase_allSpaces (s : string) :
  allSpaces s = true -> toLowerCase s = s.
Proof.
  induction s as [|c s IH]; [reflexivity|].
  cbn [allSpaces toLowerCase]. intros H.
  apply andb_true_iff in H. destruct H as [H1 H2].
  now rewrite (lowerChar_space c H1), IH.
Qed.

Lemma includes_allSpaces (s : string) (k : ascii) (r : string) :
  allSpaces s = true -> isSpace k = false -> includes s (String k r) = false.
Proof.
  intros H K. induction s as [|c s IH]; [reflexivity|].
  cbn [allSpaces] in H. apply andb_true_iff in H. destruct H as [H1 H2].
  rewrite includes_cons, (IH H2), orb_false_r.
  cbn [startsWith].
  destruct (Ascii.eqb k c) eqn:E; [|reflexivity].
  apply Ascii.eqb_eq in E. subst c. congruence.
Qed.

Lemma eqb_allSpaces (s : string) (k : ascii) (r : string) :
  allSpaces s = true -> isSpace k = false -> (s =? String k r) = false.
Proof.
  intros H K. destruct s as [|c s]; [reflexivity|].
  cbn [allSpaces] in H. apply andb_true_iff in H. destruct H as [H1 H2].
  cbn [String.eqb].
  destruct (Ascii.eqb c k) eqn:E; [|reflexivity].
  apply Ascii.eqb_eq in E. subst c. congruence.
Qed.

End BlankFacts.

(** X25. A location that is not empty and holds ASCII white space only
    (tab, line feed, vertical tab, form feed, carriage return, space) is
    not a sentinel: the classifier does not flag it, and the normaliser
    returns the empty string for it, for every country, without
    throwing. *)
Theorem X25_blank_location_is_not_a_sentinel (s : string) (ctry : text) :
  s <> "" -> allSpaces s = true ->
  isPotentiallyProblematic (Str s) = false
  /\ normalizeLocation (Str s) ctry = Normal "".
Proof.
  intros N B.
  assert ((s =? "") = false) as E0 by now apply String.eqb_neq.
  assert ((s =? "null") = false) as E1 by now apply eqb_allSpaces.
  split.
  - unfold isPotentiallyProblematic. cbn [truthy strictEq interpolate].
    rewrite E0, E1. cbn [negb orb].
    rewrite (toLowerCase_allSpaces s B).
    unfold problematicKeywords. cbn [existsb].
    now rewrite !(includes_allSpaces s _ _ B), ?orb_false_r by reflexivity.
  - unfold normalizeLocation. cbn [truthy strictEq interpolate].
    rewrite E0, E1, (toLowerCase_allSpaces s B).
    rewrite (eqb_allSpaces s _ _ B) by reflexivity.
    cbn [negb orb]. unfold trim. rewrite (trimStart_allSpaces s B).
    cbn [trimEnd]. unfold stripUK.
    rewrite includes_nil. cbn [startsWith]. rewrite andb_false_r.
    unfold stripGreaterArea. rewrite !includes_nil. cbn [startsWith andb].
    unfold stripCountryName. rewrite includes_nil. cbn [startsWith].
    now rewrite andb_false_r.
Qed.

(* ================================================================== *)
(** ** The properties on the sample data *)

Lemma X1_entry_of_key_witness :
  assoc "Paris|FR" (collectLocations sampleMembers)
  = Some {| loc_location := Str "Paris"; loc_country := Str "FR";
            loc_count := 2; loc_members := ["Ada L"; "Cy M"] |}.
Proof.
  exact (proj1 (X1_entry_of_key sampleMembers "Paris|FR") ada [cy] eq_refl).
Defined.

Lemma X2_counts_add_up_witness :
  List.length ["Ada L"; "Cy M"] = 2 /\ 1 <= 2.
Proof.
  apply (proj2 (X2_counts_add_up sampleMembers) "Paris|FR"
           {| loc_location := Str "Paris"; loc_country := Str "FR";
              loc_count := 2; loc_members := ["Ada L"; "Cy M"] |}).
  vm_compute. tauto.
Defined.

Lemma X4_problematic_locations_first_witness :
  exists others,
    map res_data (allResults sampleOutput)
    = (problematicLocations sampleOutput ++ others)%list
    /\ Forall (fun d => isPotentiallyProblematic (loc_location d) = true)
              (problematicLocations sampleOutput)
    /\ Forall (fun d => isPotentiallyProblematic (loc_location d) = false)
              others
    /\ Permutation (problematicLocations sampleOutput ++ others)%list
                   (map snd (collectLocations sampleMembers)).
Proof.
  apply (X4_problematic_locations_first sampleProvider 0 sampleMembers).
  vm_compute. reflexivity.
Defined.

Lemma X5_results_well_formed_witness :
  ((success parisResult = true /\ geocoded parisResult <> None
    /\ error parisResult = None)
   \/ (success parisResult = false /\ geocoded parisResult = None
       /\ error parisResult <> None))
  /\ res_key parisResult
     = locationKey (res_location parisResult) (res_country parisResult).
Proof.
  apply (X5_results_well_formed sampleProvider 0 sampleMembers sampleOutput).
  - vm_compute. reflexivity.
  - vm_compute. tauto.
Defined.

Lemma X6_summary_counts_witness :
  total (summary sampleOutput) = List.length (allResults sampleOutput)
  /\ total (summary sampleOutput)
     = List.length (collectLocations sampleMembers)
  /\ successful (summary sampleOutput)
     = List.length (filter success (allResults sampleOutput))
  /\ failed (summary sampleOutput) = List.length (failedGeocode sampleOutput)
  /\ successful (summary sampleOutput) + failed (summary sampleOutput)
     = total (summary sampleOutput)
  /\ problematic (summary sampleOutput)
     = List.length (problematicLocations sampleOutput)
  /\ problematic (summary sampleOutput) <= total (summary sampleOutput)
  /\ summary_mismatches (summary sampleOutput)
     = List.length (verificationMismatches sampleOutput)
  /\ summary_mismatches (summary sampleOutput) <= 10
  /\ summary_mismatches (summary sampleOutput)
     <= successful (summary sampleOutput).
Proof.
  apply (X6_summary_counts sampleProvider 0 sampleMembers).
  vm_compute. reflexivity.
Defined.


Lemma X8_mismatch_origin_witness :
  exists r g o,
    In r (firstn 10 (filter success (allResults sampleOutput)))
    /\ geocoded r = Some g
    /\ res_location r = Str o
    /\ original berlinMismatch = Str o
    /\ originalCountry berlinMismatch = res_country r
    /\ coordinates berlinMismatch = lat g ++ ", " ++ lng g
    /\ membersAffected berlinMismatch = loc_count (res_data r)
    /\ (asciiOnly o = true ->
        asciiOnly (reverseGeocodedTo berlinMismatch) = true ->
        ~ ContainsIgnoringCase (reverseGeocodedTo berlinMismatch) o).
Proof.
  apply (X8_mismatch_origin sampleProvider 0 sampleMembers sampleOutput).
  - vm_compute. reflexivity.
  - vm_compute. tauto.
Defined.

Lemma X9_normalizer_throws_iff_witness :
  exists message,
    normalizeLocation (Str "Paris, France") (Str "constructor")
    = Throw message.
Proof.
  apply (proj2 (X9_normalizer_throws_iff (Str "Paris, France")
                                         (Str "constructor"))).
  exists "Paris, France", "constructor".
  repeat split; vm_compute; tauto.
Defined.

Lemma X10_run_completes_iff_witness :
  exists out, geocodeTeamData sampleProvider 0 sampleMembers = Normal out.
Proof.
  apply (proj2 (X10_run_completes_iff sampleProvider 0 sampleMembers)).
  intros k d H. vm_compute in H.
  repeat (destruct H as [H|H];
          [injection H as <- <-; eexists; vm_compute; reflexivity|]).
  contradiction.
Defined.

Lemma X11_normalizer_only_removes_witness :
  asciiOnly "London" = true
  /\ (("London" = "North Pole"
       /\ ("London, UK" = "" \/ "London, UK" = "null"
           \/ toLowerCase "London, UK" = "world"))
      \/ String.length "London" <= String.length "London, UK").
Proof.
  apply (X11_normalizer_only_removes "London, UK" (Str "GB") "London");
    reflexivity.
Defined.

Lemma X12_no_comma_with_country_name_witness :
  normalizeLocation (Str "Paris, Texas") (Str "FR") = Normal "Paris, Texas"
  /\ asciiOnly "Paris, Texas" = true
  /\ ~ ContainsIgnoringCase "Paris, Texas" "France".
Proof.
  split; [reflexivity|].
  apply (X12_no_comma_with_country_name (Str "Paris, Texas") (Str "FR"));
    reflexivity.
Defined.

Lemma X13_sentinel_inputs_are_problematic_witness :
  isPotentiallyProblematic (Str "World") = true.
Proof.
  apply X13_sentinel_inputs_are_problematic.
  right. right. right. right. exists "World". split; reflexivity.
Defined.

Lemma X14_coordinates_come_from_a_result_witness :
  exists m r g,
    In m sampleRecords /\ In r sampleResults
    /\ success r = true /\ geocoded r = Some g
    /\ locationKey (res_location r) (res_country r)
       = locationKey (location m) (country m)
    /\ em_latitude (enrich ada (coordsOf parisPlace)) = lat g
    /\ em_longitude (enrich ada (coordsOf parisPlace)) = lng g
    /\ em_formattedAddress (enrich ada (coordsOf parisPlace))
       = geo_formattedAddress g
    /\ em_id (enrich ada (coordsOf parisPlace)) = squeakId m
    /\ em_name (enrich ada (coordsOf parisPlace)) = fullName m.
Proof.
  apply (X14_coordinates_come_from_a_result "now").
  vm_compute. tauto.
Defined.

Lemma X15_last_result_of_a_key_wins_witness :
  teamOf "now" [ada] sampleResults = [enrich ada (coordsOf parisPlace)]
  /\ em_latitude (enrich ada (coordsOf parisPlace)) = lat parisPlace
  /\ em_longitude (enrich ada (coordsOf parisPlace)) = lng parisPlace.
Proof.
  apply (X15_last_result_of_a_key_wins "now" []
           [unresolvedResult (Str "Atlantis") (Str "GR")]
           (resolved (Str "Paris") (Str "FR") "48.8534951" "2.3483915"
                     "Paris, France")
           parisPlace ada); try reflexivity.
  intros r' [<-|[]] _. left. reflexivity.
Defined.

Lemma X17_every_record_is_placed_or_warned_witness :
  exists r,
    In r (allResults sampleOutput)
    /\ locationKey (res_location r) (res_country r)
       = locationKey (location ada) (country ada)
    /\ ((success r = true
         /\ exists g, geocoded r = Some g
                      /\ In (enrich ada (coordsOf g))
                            (teamOf "now" sampleMembers
                                    (allResults sampleOutput)))
        \/ (success r = false
            /\ In (warningFor ada)
                  (warningsOf "now" sampleMembers (allResults sampleOutput))
            /\ forall c, ~ In (enrich ada c)
                              (teamOf "now" sampleMembers
                                      (allResults sampleOutput)))).
Proof.
  apply (X17_every_record_is_placed_or_warned sampleProvider 0).
  - vm_compute. reflexivity.
  - vm_compute. tauto.
Defined.

Lemma X19_team_file_is_read_once_witness :
  teamCache (snd (serve loadedCaches
                        [(missingFiles, GetTeam);
                         (missingFiles, GetTeamById "7")]))
  = Some sampleDataset
  /\ Forall2
       (fun fr r =>
          match snd fr with
          | GetTeam =>
              r = Normal (TeamReply {| list_success := true;
                                       list_metadata := metadata sampleDataset;
                                       list_team := team sampleDataset |})
          | GetTeamById id =>
              r = Normal (MemberReply (getMember sampleDataset id))
          | GetApplicant => True
          end)
       [(missingFiles, GetTeam); (missingFiles, GetTeamById "7")]
       (fst (serve loadedCaches
                   [(missingFiles, GetTeam);
                    (missingFiles, GetTeamById "7")])).
Proof.
  apply (X19_team_file_is_read_once unit loadedCaches). reflexivity.
Defined.

Lemma X20_first_read_loads_failed_read_does_not_witness :
  serve emptyCaches [(missingFiles, GetTeam); (goodFiles, GetTeamById "7")]
  = (Throw "ENOENT"
       :: fst (serve emptyCaches [(goodFiles, GetTeamById "7")]),
     snd (serve emptyCaches [(goodFiles, GetTeamById "7")]))
  /\ teamCache
       (snd (serve emptyCaches
                   [(goodFiles, GetTeamById "7"); (missingFiles, GetTeam)]))
     = Some sampleDataset.
Proof.
  split.
  - apply (proj1 (X20_first_read_loads_failed_read_does_not
                    unit emptyCaches missingFiles GetTeam
                    [(goodFiles, GetTeamById "7")] eq_refl eq_refl)).
    reflexivity.
  - apply (proj2 (X20_first_read_loads_failed_read_does_not
                    unit emptyCaches goodFiles (GetTeamById "7")
                    [(missingFiles, GetTeam)] eq_refl eq_refl)
                 sampleDataset eq_refl).
Defined.

Lemma X21_only_numbers_match_witness :
  (getMember sampleDataset "7" = notFound
   \/ exists m z,
        getMember sampleDataset "7" = found m /\ In m (team sampleDataset)
        /\ parseInt "7" = Some z /\ isSafeInteger z = true
        /\ em_id m = JNum (decimalText z))
  /\ (parseInt "7" = None -> getMember sampleDataset "7" = notFound).
Proof.
  apply (X21_only_numbers_match sampleDataset "7").
  - reflexivity.
  - intros z E. vm_compute in E. injection E as <-. reflexivity.
Defined.

Lemma X22_trailing_characters_are_ignored_witness :
  parseInt "12abc" = Some 12%Z
  /\ getMember sampleDataset "12abc" = getMember sampleDataset "12".
Proof.
  apply (X22_trailing_characters_are_ignored sampleDataset 12 "a" "bc").
  - reflexivity.
  - reflexivity.
  - intros E. discriminate E.
Defined.

Lemma X23_lookup_finds_the_merged_record_witness :
  getMember sampleDataset "7" = found (enrich ada (coordsOf parisPlace)).
Proof.
  refine (proj1 (X23_lookup_finds_the_merged_record
                   "now" sampleRecords sampleResults ada 7 _ _ eq_refl) _ _).
  - vm_compute. repeat constructor; simpl; intuition discriminate.
  - left. reflexivity.
  - vm_compute. tauto.
Defined.

Lemma X25_blank_location_is_not_a_sentinel_witness :
  isPotentiallyProblematic (Str "  ") = false
  /\ normalizeLocation (Str "  ") (Str "constructor") = Normal "".
Proof.
  apply (X25_blank_location_is_not_a_sentinel "  " (Str "constructor")).
  - intros E. discriminate E.
  - reflexivity.
Defined.
